(** * Verification of the Webex bridge: splitter, turn handling, poll loop,
      API client and subprocess bridge (bot.py, webex_api.py, claude_cli.py). *)

From Stdlib Require Import List Bool Arith Lia ZArith NArith String Ascii.
From Stdlib Require DecimalN DecimalFacts.
From stdpp Require Import base gmap strings list.
Import ListNotations.
Open Scope list_scope.

(* ===================================================================== *)
(** ** Python strings                                                    *)
(* ===================================================================== *)

(** A Python [str] is a sequence of code points. *)
Abbreviation pystr := (list N).

(** ASCII literal as a code-point string. *)
Fixpoint lit (s : string) : pystr :=
  match s with
  | EmptyString => []
  | String a r => N_of_ascii a :: lit r
  end.

Definition NL : N := 10%N.

(** Number of bytes of one code point under UTF-8 ([str.encode("utf-8")]).
    Lone surrogates make Python's strict encoder raise; for them the table
    gives their 3-byte form, so statements about returned chunks stay
    meaningful on the strings Python can encode. *)
Definition utf8_len (c : N) : nat :=
  if (c <? 128)%N then 1
  else if (c <? 2048)%N then 2
  else if (c <? 65536)%N then 3
  else 4.

(** [len(s.encode("utf-8"))] *)
Fixpoint byte_len (s : pystr) : nat :=
  match s with
  | [] => 0
  | c :: r => utf8_len c + byte_len r
  end.

(** [text.split("\n")]: always at least one piece. *)
Fixpoint split_nl (s : pystr) : list pystr :=
  match s with
  | [] => [[]]
  | c :: r =>
      if (c =? NL)%N then [] :: split_nl r
      else match split_nl r with
           | [] => [[c]]
           | p :: ps => (c :: p) :: ps
           end
  end.

(** Python truthiness of a string. *)
Definition truthy (s : pystr) : bool :=
  match s with [] => false | _ => true end.

(** [str.isspace] code points. *)
Definition is_space (c : N) : bool :=
  ((9 <=? c) && (c <=? 13))%N || ((28 <=? c) && (c <=? 32))%N ||
  (c =? 133)%N || (c =? 160)%N || (c =? 5760)%N ||
  ((8192 <=? c) && (c <=? 8202))%N || (c =? 8232)%N || (c =? 8233)%N ||
  (c =? 8239)%N || (c =? 8287)%N || (c =? 12288)%N.

Fixpoint lstrip (s : pystr) : pystr :=
  match s with
  | c :: r => if is_space c then lstrip r else s
  | [] => []
  end.

(** [str.strip()] *)
Definition strip (s : pystr) : pystr := rev (lstrip (rev (lstrip s))).

(** [d.get(key, default)] on a key that may be absent. *)
Definition get_default (d : pystr) (v : option pystr) : pystr :=
  match v with Some x => x | None => d end.

(* ===================================================================== *)
(** ** bot.py: split_message and _hard_split_line                        *)
(* ===================================================================== *)

Module Splitter.

(** The [for char in line] loop of [_hard_split_line], with [parts] and
    [current] as accumulators. *)
Fixpoint hard_split_loop (max_bytes : nat) (parts : list pystr) (current : pystr)
    (line : pystr) : list pystr * pystr :=
  match line with
  | [] => (parts, current)
  | ch :: rest =>
      let candidate := current ++ [ch] in
      if max_bytes <? byte_len candidate then
        hard_split_loop max_bytes (parts ++ [current]) [ch] rest
      else hard_split_loop max_bytes parts candidate rest
  end.

Definition _hard_split_line (line : pystr) (max_bytes : nat) : list pystr :=
  let '(parts, current) := hard_split_loop max_bytes [] [] line in
  if truthy current then parts ++ [current] else parts.

(** The [for line in text.split("\n")] loop of [split_message]. *)
Fixpoint split_loop (max_bytes : nat) (chunks : list pystr) (current : pystr)
    (lines : list pystr) : list pystr * pystr :=
  match lines with
  | [] => (chunks, current)
  | line :: rest =>
      let candidate := if truthy current then current ++ [NL] ++ line else line in
      if max_bytes <? byte_len candidate then
        let chunks' := if truthy current then chunks ++ [current] else chunks in
        if max_bytes <? byte_len line then
          split_loop max_bytes (chunks' ++ _hard_split_line line max_bytes) [] rest
        else split_loop max_bytes chunks' line rest
      else split_loop max_bytes chunks candidate rest
  end.

Definition split_message (text : pystr) (max_bytes : nat) : list pystr :=
  if byte_len text <=? max_bytes then [text]
  else
    let '(chunks, current) := split_loop max_bytes [] [] (split_nl text) in
    if truthy current then chunks ++ [current] else chunks.

(** Every character of [s] fits in the budget on its own. *)
Definition chars_fit (max_bytes : nat) (s : pystr) : Prop :=
  Forall (fun c => utf8_len c <= max_bytes) s.

Definition all_fit (max_bytes : nat) (l : list pystr) : Prop :=
  Forall (fun p => byte_len p <= max_bytes) l.

End Splitter.

(* ===================================================================== *)
(** ** bot.py: per-room state and handle_text_message                    *)
(* ===================================================================== *)

Module Turn.
Import Splitter.

(** [sessions.SessionInfo]: an immutable snapshot from the session catalog. *)
Record SessionInfo := mkSessionInfo {
  si_session_id : pystr; si_display : pystr; si_cwd : pystr;
  si_project : pystr; si_timestamp : Z }.

(** [@dataclass class BotState]. *)
Record BotState := mkBotState {
  session_id : option pystr;
  session_cwd : option pystr;
  session_label : pystr;
  skip_permissions : bool;
  pending_sessions : list SessionInfo;
  processing : bool }.

Definition BotState_default : BotState := mkBotState None None [] false [] false.

Definition set_processing (b : bool) (s : BotState) : BotState :=
  mkBotState (session_id s) (session_cwd s) (session_label s)
             (skip_permissions s) (pending_sessions s) b.

(** Python exceptions: [except Exception] catches the first kind only;
    [SystemExit] and [asyncio.CancelledError] are of the second kind. *)
Inductive exn :=
| PyException (name : pystr)
| PyBaseException (name : pystr).

Inductive res (A : Type) := Ok (a : A) | Raise (e : exn).
Arguments Ok {A} a.
Arguments Raise {A} e.

(** The awaited calls of the coroutine. *)
Inductive Call :=
| ApiSend (room text : pystr)
| ApiEdit (message_id room text : pystr)
| CliSend (sid : option pystr) (message : pystr) (cwd : option pystr) (skip : bool).

(** What the outside world answers to the n-th awaited call:
    [api.send_message] gives the ["id"] field of the returned dict,
    [api.edit_message] gives [true] for a dict and [false] for [None],
    [cli_send_message] gives the response text (the timeout message
    included); each of them may also raise. *)
Record Oracle := mkOracle {
  ans_send : nat -> res (option pystr);
  ans_edit : nat -> res bool;
  ans_cli : nat -> res pystr }.

(** [_room_states], the trace of awaited calls, each paired with the room
    table as another coroutine would observe it while this one is
    suspended on that call, and the number of calls made so far. *)
Record World := mkWorld {
  rooms : gmap pystr BotState;
  trace : list (Call * gmap pystr BotState);
  tick : nat }.

Section Coroutine.
Variable oracle : Oracle.
(** [config.WEBEX_MAX_MESSAGE_BYTES], the default budget of [split_message]. *)
Variable WEBEX_MAX_MESSAGE_BYTES : nat.

Definition M (A : Type) : Type := World -> World * res A.

Definition ret {A} (a : A) : M A := fun w => (w, Ok a).
Definition raise {A} (e : exn) : M A := fun w => (w, Raise e).
Definition bind {A B} (m : M A) (k : A -> M B) : M B :=
  fun w => match m w with
           | (w', Ok a) => k a w'
           | (w', Raise e) => (w', Raise e)
           end.

Notation "x <- m ;; k" := (bind m (fun x => k))
  (at level 100, m at next level, right associativity).
Notation "m ;;; k" := (bind m (fun _ => k))
  (at level 100, right associativity).

(** Run [m] and hand its outcome, value or exception, to the caller. *)
Definition attempt {A} (m : M A) : M (res A) :=
  fun w => let '(w', r) := m w in (w', Ok r).

(** [try: body finally: fin]. *)
Definition try_finally {A} (body : M A) (fin : M unit) : M A :=
  fun w => let '(w1, r) := body w in
           let '(w2, r2) := fin w1 in
           (w2, match r2 with Raise e => Raise e | Ok _ => r end).

(** [get_state(room_id)]: get or create the room's state. *)
Definition get_state (room_id : pystr) : M BotState :=
  fun w => match rooms w !! room_id with
           | Some s => (w, Ok s)
           | None => (mkWorld (<[room_id := BotState_default]> (rooms w)) (trace w) (tick w),
                      Ok BotState_default)
           end.

(** An attribute assignment on the shared [BotState] object. *)
Definition modify_state (room_id : pystr) (f : BotState -> BotState) : M unit :=
  fun w => match rooms w !! room_id with
           | Some s => (mkWorld (<[room_id := f s]> (rooms w)) (trace w) (tick w), Ok tt)
           | None => (w, Ok tt)
           end.

Definition await_call {A} (c : Call) (answer : nat -> res A) : M A :=
  fun w => (mkWorld (rooms w) (trace w ++ [(c, rooms w)]) (S (tick w)), answer (tick w)).

Definition api_send_message (room_id text : pystr) : M (option pystr) :=
  await_call (ApiSend room_id text) (ans_send oracle).
Definition api_edit_message (message_id room_id text : pystr) : M bool :=
  await_call (ApiEdit message_id room_id text) (ans_edit oracle).
Definition cli_send_message (sid : option pystr) (message : pystr) (cwd : option pystr)
    (skip : bool) : M pystr :=
  await_call (CliSend sid message cwd skip) (ans_cli oracle).

Fixpoint send_all (room_id : pystr) (chunks : list pystr) : M unit :=
  match chunks with
  | [] => ret tt
  | c :: rest => api_send_message room_id c ;;; send_all room_id rest
  end.

Definition not_connected_text : pystr :=
  lit "Not connected. Use `/sessions` to pick a session.".
Definition busy_text : pystr :=
  lit "Still processing the previous message. Please wait.".
Definition thinking_text : pystr := lit "Thinking...".
Definition error_text : pystr :=
  lit "An error occurred while processing your message. Check the bot logs for details.".

(** The [except Exception] block. *)
Definition on_error (room_id : pystr) (thinking_id : option pystr) : M unit :=
  match thinking_id with
  | Some tid =>
      if truthy tid then api_edit_message tid room_id error_text ;;; ret tt
      else api_send_message room_id error_text ;;; ret tt
  | None => api_send_message room_id error_text ;;; ret tt
  end.

(** The body of the [try] after [thinking_id] is known. *)
Definition relay_response (room_id text : pystr) (thinking_id : option pystr) : M unit :=
  state <- get_state room_id ;;
  response <- cli_send_message (session_id state) text (session_cwd state)
                               (skip_permissions state) ;;
  match split_message response WEBEX_MAX_MESSAGE_BYTES with
  | [] => raise (PyException (lit "IndexError"))
  | first :: rest =>
      (match thinking_id with
       | Some tid =>
           if truthy tid then
             result <- api_edit_message tid room_id first ;;
             if result then ret tt else api_send_message room_id first ;;; ret tt
           else api_send_message room_id first ;;; ret tt
       | None => api_send_message room_id first ;;; ret tt
       end) ;;;
      send_all room_id rest
  end.

(** The [try]/[except Exception] block; a [BaseException] passes through. *)
Definition guarded (room_id text : pystr) : M unit :=
  r1 <- attempt (api_send_message room_id thinking_text) ;;
  match r1 with
  | Raise (PyException _) => on_error room_id None
  | Raise e => raise e
  | Ok thinking_id =>
      r2 <- attempt (relay_response room_id text thinking_id) ;;
      match r2 with
      | Raise (PyException _) => on_error room_id thinking_id
      | Raise e => raise e
      | Ok _ => ret tt
      end
  end.

Definition handle_text_message (room_id text : pystr) : M unit :=
  state <- get_state room_id ;;
  match session_id state with
  | None => api_send_message room_id not_connected_text ;;; ret tt
  | Some _ =>
      if processing state then api_send_message room_id busy_text ;;; ret tt
      else
        modify_state room_id (set_processing true) ;;;
        try_finally (guarded room_id text)
                    (modify_state room_id (set_processing false))
  end.

End Coroutine.

(** [m] leaves the room table as it is and only appends awaited calls
    during which the table is the one [m] started from. *)
Definition keeps (room : pystr) {A} (m : M A) : Prop :=
  forall w, is_Some (rooms w !! room) ->
    rooms (fst (m w)) = rooms w /\
    exists ext, trace (fst (m w)) = trace w ++ ext /\
                Forall (fun p => snd p = rooms w) ext.

(** What a turn does when the guard is held: one busy reply, nothing else. *)
Definition busy_outcome (o : Oracle) (room : pystr) (w : World) : World * res unit :=
  (mkWorld (rooms w) (trace w ++ [(ApiSend room busy_text, rooms w)]) (S (tick w)),
   match ans_send o (tick w) with Ok _ => Ok tt | Raise e => Raise e end).

End Turn.

(* ===================================================================== *)
(** ** bot.py: poll_loop, one room of one cycle                          *)
(* ===================================================================== *)

Module Poll.

(** A string field of a message dict as JSON gives it: missing, [null], or
    a string. *)
Inductive JField :=
| JMissing
| JNull
| JString (s : pystr).

(** [msg.get(key, "")]: the Python value, [None] for a JSON [null]. *)
Definition get_or_empty (f : JField) : option pystr :=
  match f with
  | JMissing => Some []
  | JNull => None
  | JString s => Some s
  end.

(** A message dict of the feed; [msg.get("personId")] is [None] both for a
    missing key and for [null]. *)
Record Msg := mkMsg {
  msg_id : pystr;
  msg_personId : option pystr;
  msg_personEmail : JField;
  msg_text : JField }.

(** [last_seen] and [initialized_rooms], the locals of [poll_loop]. *)
Record PollState := mkPollState {
  last_seen : gmap pystr pystr;
  initialized_rooms : gset pystr }.

(** How the body of the dispatch loop ends for one message: [continue],
    [await dispatch(api, room_id, text)] (assumed to return), or the
    [AttributeError] of [None.strip()] for a [null] text. *)
Inductive MsgStep :=
| MSkip
| MDispatch (ev : pystr * pystr)
| MAttributeError.

Section PollRoom.
(** [auth.is_authorized], an external allow-list predicate, applied to the
    Python value of [sender_email] (a string, or [None]). *)
Variable is_authorized : option pystr -> bool.
(** [api.bot_id], cached at start-up. *)
Variable bot_id : option pystr.

(** The [for msg in messages] loop that stops at the last-seen id. *)
Fixpoint collect_new (last : option pystr) (messages : list Msg) : list Msg :=
  match messages with
  | [] => []
  | msg :: rest =>
      if decide (Some (msg_id msg) = last) then []
      else msg :: collect_new last rest
  end.

(** The body of the dispatch loop for one message. *)
Definition msg_step (room_id : pystr) (msg : Msg) : MsgStep :=
  if decide (msg_personId msg = bot_id) then MSkip
  else
    let sender_email := get_or_empty (msg_personEmail msg) in
    if negb (is_authorized sender_email) then MSkip
    else
      match get_or_empty (msg_text msg) with
      | None => MAttributeError
      | Some t =>
          let text := strip t in
          if truthy text then MDispatch (room_id, text) else MSkip
      end.

(** The [dispatch(api, room_id, text)] call a message leads to, if any. *)
Definition event_of (room_id : pystr) (msg : Msg) : option (pystr * pystr) :=
  match msg_step room_id msg with
  | MDispatch ev => Some ev
  | _ => None
  end.

(** The dispatch loop over the new messages, oldest first: the [dispatch]
    calls made, and whether the loop raised [AttributeError]. *)
Fixpoint dispatch_loop (room_id : pystr) (new_messages : list Msg)
    : list (pystr * pystr) * bool :=
  match new_messages with
  | [] => ([], false)
  | msg :: rest =>
      match msg_step room_id msg with
      | MSkip => dispatch_loop room_id rest
      | MDispatch ev => let '(evs, raised) := dispatch_loop room_id rest in (ev :: evs, raised)
      | MAttributeError => ([], true)
      end
  end.

(** The [dispatch] calls the loop makes. *)
Definition dispatch_all (room_id : pystr) (new_messages : list Msg) : list (pystr * pystr) :=
  fst (dispatch_loop room_id new_messages).

(** One room of one poll cycle, from [messages = await api.list_messages(...)]
    on (the list is newest first): the new state, the [dispatch] calls, and
    whether an exception left the room's code. *)
Definition poll_room_run (ps : PollState) (room_id : pystr) (messages : list Msg)
    : PollState * (list (pystr * pystr) * bool) :=
  match messages with
  | [] => (ps, ([], false))
  | newest :: _ =>
      let newest_id := msg_id newest in
      if decide (room_id ∈ initialized_rooms ps) then
        if decide (last_seen ps !! room_id = Some newest_id) then (ps, ([], false))
        else
          let new_messages := collect_new (last_seen ps !! room_id) messages in
          (mkPollState (<[room_id := newest_id]> (last_seen ps)) (initialized_rooms ps),
           dispatch_loop room_id (rev new_messages))
      else
        (mkPollState (<[room_id := newest_id]> (last_seen ps))
                     ({[room_id]} ∪ initialized_rooms ps), ([], false))
  end.

(** The state and the [dispatch] calls of one room. *)
Definition poll_room (ps : PollState) (room_id : pystr) (messages : list Msg)
    : PollState * list (pystr * pystr) :=
  let '(ps', (evs, _)) := poll_room_run ps room_id messages in (ps', evs).

(** One cycle over the rooms, each with its fetched page. An exception
    leaves the [for room in rooms] loop for the [except Exception] branch:
    the rooms after it wait for the next cycle, and the state keeps what
    was done. *)
Fixpoint poll_cycle (ps : PollState) (feeds : list (pystr * list Msg))
    : PollState * list (pystr * pystr) :=
  match feeds with
  | [] => (ps, [])
  | (room_id, messages) :: rest =>
      let '(ps1, (evs1, raised)) := poll_room_run ps room_id messages in
      if raised then (ps1, evs1)
      else
        let '(ps2, evs2) := poll_cycle ps1 rest in
        (ps2, evs1 ++ evs2)
  end.

End PollRoom.
End Poll.

(* ===================================================================== *)
(** ** Decimal rendering and substring search                            *)
(* ===================================================================== *)

Fixpoint uint_digits (d : Decimal.uint) : pystr :=
  match d with
  | Decimal.Nil => []
  | Decimal.D0 r => 48%N :: uint_digits r
  | Decimal.D1 r => 49%N :: uint_digits r
  | Decimal.D2 r => 50%N :: uint_digits r
  | Decimal.D3 r => 51%N :: uint_digits r
  | Decimal.D4 r => 52%N :: uint_digits r
  | Decimal.D5 r => 53%N :: uint_digits r
  | Decimal.D6 r => 54%N :: uint_digits r
  | Decimal.D7 r => 55%N :: uint_digits r
  | Decimal.D8 r => 56%N :: uint_digits r
  | Decimal.D9 r => 57%N :: uint_digits r
  end.

(** [str(n)] for a Python [int]. *)
Definition str_of_Z (z : Z) : pystr :=
  match z with
  | Z0 => lit "0"
  | Zpos p => uint_digits (N.to_uint (Npos p))
  | Zneg p => 45%N :: uint_digits (N.to_uint (Npos p))
  end.

Fixpoint is_prefix (p s : pystr) : bool :=
  match p, s with
  | [], _ => true
  | _ :: _, [] => false
  | a :: p', b :: s' => (a =? b)%N && is_prefix p' s'
  end.

(** [needle in hay] for strings. *)
Fixpoint contains (needle hay : pystr) : bool :=
  is_prefix needle hay ||
  match hay with
  | [] => false
  | _ :: hay' => contains needle hay'
  end.

(* ===================================================================== *)
(** ** webex_api.py: WebexAPI._request                                   *)
(* ===================================================================== *)

Module Webex.

Definition MAX_RETRIES : nat := 3.

(** What one [self._client.request(...)] call gives: an
    [httpx.RequestError], or a response with its status code, its
    [Retry-After] header and what [response.json()] gives for its body:
    the decoded value, or [None] when the body is not JSON (it raises a
    [ValueError]: [json.JSONDecodeError], or [UnicodeDecodeError] for
    bytes that do not decode). *)
Inductive Reply :=
| NetError
| Response (status_code : Z) (retry_after : option pystr) (json : option pystr).

Inductive Event :=
| Requested (attempt : nat)
| Slept (seconds : Z).

Inductive Outcome :=
| Returned (body : pystr)
| RaisedRequestError
| RaisedHTTPStatusError (status_code : Z)
| RaisedRetriesExhausted
| RaisedSystemExit (message : pystr)
| RaisedRuntimeError (message : pystr)
| RaisedJSONError.

(** The code point of the digit zero of each run of ten decimal digits
    of the Unicode database (version 14.0, the one of CPython 3.11). *)
Definition DECIMAL_ZEROS : list N :=
  [
   48; 1632; 1776; 1984; 2406; 2534; 2662; 2790; 2918; 3046;
   3174; 3302; 3430; 3558; 3664; 3792; 3872; 4160; 4240; 6112;
   6160; 6470; 6608; 6784; 6800; 6992; 7088; 7232; 7248; 42528;
   43216; 43264; 43472; 43504; 43600; 44016; 65296; 66720; 68912; 69734;
   69872; 69942; 70096; 70384; 70736; 70864; 71248; 71360; 71472; 71904;
   72016; 72784; 73040; 73120; 92768; 92864; 93008; 120782; 120792; 120802;
   120812; 120822; 123200; 123632; 125264; 130032]%N.

(** [Py_UNICODE_TODECIMAL]: the value of a decimal digit. *)
Definition decimal_value (c : N) : option N :=
  match find (fun z => (z <=? c) && (c <? z + 10))%N DECIMAL_ZEROS with
  | Some z => Some (c - z)%N
  | None => None
  end.

Definition is_decimal (c : N) : bool :=
  match decimal_value c with Some _ => true | None => false end.

(** The whitespace [int()] skips around a number: the ASCII whitespace of
    [Py_ISSPACE], and the non-ASCII whitespace that
    [_PyUnicode_TransformDecimalAndSpaceToASCII] turns into a space
    (the ASCII separators 28 to 31 are not skipped). *)
Definition int_space (c : N) : bool :=
  ((9 <=? c) && (c <=? 13))%N || (c =? 32)%N || ((127 <=? c)%N && is_space c).

Fixpoint skip_int_space (s : pystr) : pystr :=
  match s with
  | c :: r => if int_space c then skip_int_space r else s
  | [] => []
  end.

Definition int_strip (s : pystr) : pystr := rev (skip_int_space (rev (skip_int_space s))).

(** [sys.get_int_max_str_digits()], at its default. *)
Definition INT_MAX_STR_DIGITS : nat := 4300.

(** The digits of [int(s)] after the sign: decimal digits with single
    underscores between them; [None] for a [ValueError]. *)
Fixpoint digits_value (acc : Z) (after_digit : bool) (s : pystr) : option Z :=
  match s with
  | [] => if after_digit then Some acc else None
  | c :: r =>
      match decimal_value c with
      | Some d => digits_value (10 * acc + Z.of_N d) true r
      | None =>
          if (c =? 95)%N && after_digit then
            match r with
            | d :: _ => if is_decimal d then digits_value acc false r else None
            | [] => None
            end
          else None
      end
  end.

(** The number of digits [int()] checks against [INT_MAX_STR_DIGITS]. *)
Definition digit_count (s : pystr) : nat := length (List.filter is_decimal s).

(** [int(s)] for a string, base 10: surrounding whitespace, an optional
    sign, then the digits; [None] for a [ValueError], also when the digits
    are more than [INT_MAX_STR_DIGITS]. *)
Definition parse_int (s : pystr) : option Z :=
  let limited (body : pystr) (v : option Z) :=
    if INT_MAX_STR_DIGITS <? digit_count body then None else v in
  match int_strip s with
  | c :: r =>
      if (c =? 45)%N then limited r (option_map Z.opp (digits_value 0 false r))
      else if (c =? 43)%N then limited r (digits_value 0 false r)
      else limited (c :: r) (digits_value 0 false (c :: r))
  | [] => None
  end.

(** [min(int(headers.get("Retry-After", "5")), 60)], 5 on [ValueError]. *)
Definition retry_after_seconds (retry_after : option pystr) : Z :=
  match parse_int (get_default (lit "5") retry_after) with
  | Some n => Z.min n 60
  | None => 5
  end.

(** [min(2 ** attempt, 30)] *)
Definition backoff (attempt : nat) : Z := Z.min (2 ^ Z.of_nat attempt) 30.

Definition prepend (evs : list Event) (r : list Event * Outcome) : list Event * Outcome :=
  (evs ++ fst r, snd r).

Section Request.
(** The reply to the request made at each attempt number. *)
Variable reply : nat -> Reply.

(** [for attempt in range(1, MAX_RETRIES + 1)], with [iterations] the
    number of iterations left. *)
Fixpoint request_loop (iterations attempt : nat) : list Event * Outcome :=
  match iterations with
  | O => ([], RaisedRetriesExhausted)
  | S remaining =>
      match reply attempt with
      | NetError =>
          if attempt <? MAX_RETRIES then
            prepend [Requested attempt; Slept (backoff attempt)]
                    (request_loop remaining (S attempt))
          else ([Requested attempt], RaisedRequestError)
      | Response status retry_after json =>
          if (status =? 429)%Z then
            prepend [Requested attempt; Slept (retry_after_seconds retry_after)]
                    (request_loop remaining (S attempt))
          else if (status =? 401)%Z then
            ([Requested attempt],
             RaisedSystemExit (lit "Fatal: Webex API returned 401 Unauthorized."))
          else if (500 <=? status)%Z && (attempt <? MAX_RETRIES) then
            prepend [Requested attempt; Slept (backoff attempt)]
                    (request_loop remaining (S attempt))
          else if (200 <=? status)%Z && (status <? 300)%Z then
            ([Requested attempt],
             match json with Some body => Returned body | None => RaisedJSONError end)
          else ([Requested attempt], RaisedHTTPStatusError status)
      end
  end.

(** [_request]; [client_started] is [self._client is not None]. *)
Definition _request (client_started : bool) : list Event * Outcome :=
  if client_started then request_loop MAX_RETRIES 1
  else ([], RaisedRuntimeError (lit "Call start() before making requests")).

(** [edit_message]: the [httpx.HTTPStatusError] (the one of
    [raise_for_status] and the one raised when the retries are exhausted)
    and the [httpx.RequestError] of [_request] are caught, logged, and the
    method returns [None]; the [ValueError] of [response.json()] is not
    caught. [inl] is the returned value, [inr] an exception that
    propagates. *)
Definition edit_message (client_started : bool) : list Event * (option pystr + Outcome) :=
  let '(evs, o) := _request client_started in
  (evs, match o with
        | Returned body => inl (Some body)
        | RaisedRequestError | RaisedHTTPStatusError _ | RaisedRetriesExhausted => inl None
        | RaisedSystemExit m => inr (RaisedSystemExit m)
        | RaisedRuntimeError m => inr (RaisedRuntimeError m)
        | RaisedJSONError => inr RaisedJSONError
        end).

End Request.

(** The attempt numbers of the requests made, in order. *)
Fixpoint attempts (evs : list Event) : list nat :=
  match evs with
  | [] => []
  | Requested a :: r => a :: attempts r
  | Slept _ :: r => attempts r
  end.

(** The lengths of the [asyncio.sleep] calls, in order. *)
Fixpoint sleeps (evs : list Event) : list Z :=
  match evs with
  | [] => []
  | Requested _ :: r => sleeps r
  | Slept s :: r => s :: sleeps r
  end.

(** Whether the loop body reaches a [continue] for this reply at this
    attempt. *)
Definition retry_at (attempt : nat) (r : Reply) : bool :=
  match r with
  | NetError => attempt <? MAX_RETRIES
  | Response status _ _ =>
      (status =? 429)%Z || ((500 <=? status)%Z && (attempt <? MAX_RETRIES))
  end.

(** The length of the sleep before that [continue]. *)
Definition wait_of (attempt : nat) (r : Reply) : Z :=
  match r with
  | NetError => backoff attempt
  | Response status retry_after _ =>
      if (status =? 429)%Z then retry_after_seconds retry_after else backoff attempt
  end.

(** How the loop body ends when it does not [continue]. *)
Definition final (r : Reply) : Outcome :=
  match r with
  | NetError => RaisedRequestError
  | Response status _ json =>
      if (status =? 401)%Z then
        RaisedSystemExit (lit "Fatal: Webex API returned 401 Unauthorized.")
      else if (200 <=? status)%Z && (status <? 300)%Z then
        match json with Some body => Returned body | None => RaisedJSONError end
      else RaisedHTTPStatusError status
  end.

(** A reply the loop retries at attempts 1 and 2. *)
Definition retryable (r : Reply) : bool :=
  match r with
  | NetError => true
  | Response status _ _ => (status =? 429)%Z || (500 <=? status)%Z
  end.

(** The value of a digit string read left to right, [acc] being the value
    of the digits before it. *)
Fixpoint horner (acc : Z) (d : Decimal.uint) : Z :=
  match d with
  | Decimal.Nil => acc
  | Decimal.D0 r => horner (10 * acc + 0) r
  | Decimal.D1 r => horner (10 * acc + 1) r
  | Decimal.D2 r => horner (10 * acc + 2) r
  | Decimal.D3 r => horner (10 * acc + 3) r
  | Decimal.D4 r => horner (10 * acc + 4) r
  | Decimal.D5 r => horner (10 * acc + 5) r
  | Decimal.D6 r => horner (10 * acc + 6) r
  | Decimal.D7 r => horner (10 * acc + 7) r
  | Decimal.D8 r => horner (10 * acc + 8) r
  | Decimal.D9 r => horner (10 * acc + 9) r
  end.

End Webex.

(* ===================================================================== *)
(** ** claude_cli.py: send_message                                       *)
(* ===================================================================== *)

Module Cli.

(** The outcome of [asyncio.create_subprocess_exec(...)]. *)
Inductive Spawn :=
| Spawned
| SpawnFileNotFound
| SpawnOSError (text : pystr)
| SpawnRaised (e : Turn.exn).

(** The outcome of [asyncio.wait_for(process.communicate(), timeout=...)]:
    [asyncio.TimeoutError], or the child's stdout, stderr and exit code. *)
Inductive Communicate :=
| TimedOut
| Finished (stdout stderr : list Byte.byte) (returncode : Z).

Record CliEnv := mkCliEnv {
  which_claude : option pystr;
  spawn : Spawn;
  communicate : Communicate }.

(** Effects on the child process and on the server-side log. *)
Inductive Effect :=
| Started (cmd : list pystr) (cwd : pystr)
| Killed
| Waited
| LoggedError (text : pystr).

Section SendMessage.
(** [bytes.decode("utf-8", errors="replace")] and [str.lower()]. *)
Variable decode : list Byte.byte -> pystr.
Variable lower : pystr -> pystr.
(** [f"{CLI_TIMEOUT_SECONDS}"], from the configuration. *)
Variable CLI_TIMEOUT_SECONDS_text : pystr.

Definition not_found_text : pystr :=
  lit "Error: 'claude' CLI not found on PATH. Make sure Claude Code is installed.".

Definition timeout_text : pystr :=
  lit "Error: CLI timed out after " ++ CLI_TIMEOUT_SECONDS_text ++
  lit " seconds. The process was killed.".

Definition exit_error_text (returncode : Z) : pystr :=
  lit "Claude encountered an error (exit code " ++ str_of_Z returncode ++
  lit "). Try sending your message again, or disconnect and reconnect.".

Definition credentials_hint : pystr :=
  [NL; NL] ++ lit "This may be an AWS credentials issue. Check your credentials.".

Definition no_output_text : pystr :=
  lit "Claude completed the request but returned no output.".

(** [cmd] *)
Definition command (claude_path session_id message : pystr) (skip_permissions : bool)
    : list pystr :=
  [claude_path; lit "--print"; lit "--output-format"; lit "text"; lit "--resume"; session_id]
  ++ (if skip_permissions then [lit "--dangerously-skip-permissions"] else [])
  ++ [lit "--"; message].

(** [send_message(session_id, message, cwd, skip_permissions)] with
    [on_process_started=None], as [handle_text_message] calls it. *)
Definition send_message (env : CliEnv) (session_id message cwd : pystr)
    (skip_permissions : bool) : list Effect * Turn.res pystr :=
  match which_claude env with
  | None => ([], Turn.Ok not_found_text)
  | Some claude_path =>
      let cmd := command claude_path session_id message skip_permissions in
      match spawn env with
      | SpawnFileNotFound => ([], Turn.Ok not_found_text)
      | SpawnOSError e => ([], Turn.Ok (lit "Error starting CLI: " ++ e))
      | SpawnRaised e => ([], Turn.Raise e)
      | Spawned =>
          match communicate env with
          | TimedOut => ([Started cmd cwd; Killed; Waited], Turn.Ok timeout_text)
          | Finished stdout stderr returncode =>
              let stdout_text := strip (decode stdout) in
              let stderr_text := strip (decode stderr) in
              if negb (returncode =? 0)%Z then
                let error_msg := exit_error_text returncode in
                let logged := if truthy stderr_text
                              then [LoggedError (firstn 1000 stderr_text)] else [] in
                let hinted := contains (lit "expired") (lower stderr_text) ||
                              contains (lit "credential") (lower stderr_text) in
                (Started cmd cwd :: logged,
                 Turn.Ok (if hinted then error_msg ++ credentials_hint else error_msg))
              else if negb (truthy stdout_text) then
                ([Started cmd cwd], Turn.Ok no_output_text)
              else ([Started cmd cwd], Turn.Ok stdout_text)
          end
      end
  end.

End SendMessage.

(** Whether the credential hint is appended for a given stderr. *)
Definition hint_applies (decode : list Byte.byte -> pystr) (lower : pystr -> pystr)
    (stderr : list Byte.byte) : bool :=
  contains (lit "expired") (lower (strip (decode stderr))) ||
  contains (lit "credential") (lower (strip (decode stderr))).

End Cli.

(* ===================================================================== *)
(** ** bot.py: command handlers and dispatch                             *)
(* ===================================================================== *)

Module Bot.
Import Splitter Turn.

(** [_SKIP_DISPLAYS] *)
Definition _SKIP_DISPLAYS : list pystr :=
  [lit "/exit"; lit "/help"; lit "/start"; lit "/resume"; lit "/sessions"; []].

(** The leading run of non-whitespace characters of [s] and the rest. *)
Fixpoint span_word (s : pystr) : pystr * pystr :=
  match s with
  | [] => ([], [])
  | c :: r =>
      if is_space c then ([], s)
      else let '(w, rest) := span_word r in (c :: w, rest)
  end.

(** [s.split(None, 1)] *)
Definition split_ws1 (s : pystr) : list pystr :=
  match lstrip s with
  | [] => []
  | s' =>
      let '(w, rest) := span_word s' in
      match lstrip rest with
      | [] => [w]
      | r => [w; r]
      end
  end.

(** The attribute assignments of the handlers on the shared [BotState]. *)
Definition set_session (sid cwd : option pystr) (label : pystr) (s : BotState) : BotState :=
  mkBotState sid cwd label (skip_permissions s) (pending_sessions s) (processing s).

Definition set_skip (b : bool) (s : BotState) : BotState :=
  mkBotState (session_id s) (session_cwd s) (session_label s) b
             (pending_sessions s) (processing s).

Definition set_pending (l : list SessionInfo) (s : BotState) : BotState :=
  mkBotState (session_id s) (session_cwd s) (session_label s) (skip_permissions s)
             l (processing s).

(** The state [get_state(room_id)] returns for a room table. *)
Definition state_of (R : gmap pystr BotState) (room : pystr) : BotState :=
  match R !! room with Some s => s | None => BotState_default end.

(** [f"{x}"] for an optional string. *)
Definition py_str_opt (o : option pystr) : pystr :=
  match o with Some s => s | None => lit "None" end.

Definition mode_text (skip : bool) : pystr :=
  if skip then lit "skip-permissions" else lit "safe".

Definition start_text : pystr :=
  lit "**Claude Code Bridge (Webex)**" ++ [NL; NL] ++
  lit "Commands:" ++ [NL] ++
  lit "- `/sessions` - List recent sessions" ++ [NL] ++
  lit "- `/connect N` - Connect to session N from the list" ++ [NL] ++
  lit "- `/disconnect` - Disconnect from session" ++ [NL] ++
  lit "- `/status` - Show connection status" ++ [NL] ++
  lit "- `/safe` - Toggle permission mode" ++ [NL; NL] ++
  lit "Connect to a session, then send messages to interact with Claude Code.".

Definition usage_text : pystr := lit "Usage: `/connect N` (run `/sessions` first)".
Definition invalid_text : pystr := lit "Invalid number. Usage: `/connect N`".
Definition no_list_text : pystr := lit "No session list cached. Run `/sessions` first.".
Definition out_of_range_text (n : nat) : pystr :=
  lit "Out of range. Pick a number between 1 and " ++ str_of_Z (Z.of_nat n) ++ lit ".".
Definition not_found_text : pystr :=
  lit "Session not found. It may have been deleted. Run `/sessions` again.".

Definition connected_text (label : pystr) (session : SessionInfo) (skip : bool) : pystr :=
  lit "**Connected to:** " ++ label ++ [NL] ++
  lit "**Project:** " ++ si_project session ++ [NL] ++
  lit "**Working dir:** " ++ si_cwd session ++ [NL] ++
  lit "**Mode:** " ++ mode_text skip ++ [NL; NL] ++
  lit "Send a message to interact with this session.".

Definition skip_mode_text : pystr :=
  lit "**Mode: skip-permissions**" ++ [NL] ++
  lit "Claude will execute tools without asking for approval.".

Definition safe_mode_text : pystr :=
  lit "**Mode: safe**" ++ [NL] ++
  lit "WARNING: In --print mode, Claude cannot prompt for interactive permission " ++
  lit "approval. Commands requiring approval may cause the CLI to hang. " ++
  lit "Use `/safe` again to switch back if this happens.".

(** [session.display or session.session_id[:12]] *)
Definition session_label_of (session : SessionInfo) : pystr :=
  if truthy (si_display session) then si_display session
  else firstn 12 (si_session_id session).

(** The awaited calls of the handlers: those of [handle_text_message], and
    [api.send_card_message], recorded with the sessions the card and its
    fallback text are built from. *)
Inductive BCall :=
| Base (c : Call)
| ApiSendCard (room : pystr) (sessions : list SessionInfo).

Definition is_cli_call (c : BCall) : bool :=
  match c with Base (CliSend _ _ _ _) => true | _ => false end.

Record BWorld := mkBWorld {
  brooms : gmap pystr BotState;
  btrace : list (BCall * gmap pystr BotState);
  btick : nat }.

Definition BM (A : Type) : Type := BWorld -> BWorld * res A.

Definition bret {A} (a : A) : BM A := fun w => (w, Ok a).
Definition bbind {A B} (m : BM A) (k : A -> BM B) : BM B :=
  fun w => match m w with
           | (w', Ok a) => k a w'
           | (w', Raise e) => (w', Raise e)
           end.

(** Run a coroutine of [Turn] in the larger world; its calls keep their
    numbering. *)
Definition lift {A} (m : M A) : BM A :=
  fun w => let '(w', r) := m (mkWorld (brooms w) [] (btick w)) in
           (mkBWorld (rooms w') (btrace w ++ map (fun p => (Base (fst p), snd p)) (trace w'))
                     (tick w'), r).

(** The commands of [COMMANDS] other than [/connect]. *)
Inductive Command := CmdStart | CmdSessions | CmdDisconnect | CmdStatus | CmdSafe.

Definition COMMANDS : list (pystr * Command) :=
  [(lit "/start", CmdStart); (lit "/help", CmdStart); (lit "/sessions", CmdSessions);
   (lit "/disconnect", CmdDisconnect); (lit "/status", CmdStatus); (lit "/safe", CmdSafe)].

(** [COMMANDS[command]] for [command in COMMANDS]. *)
Definition lookup_command (command : pystr) : option Command :=
  option_map snd (find (fun p => bool_decide (fst p = command)) COMMANDS).

Section Handlers.
Variable oracle : Oracle.
Variable WEBEX_MAX_MESSAGE_BYTES : nat.
(** What [api.send_card_message] answers to the n-th awaited call. *)
Variable ans_card : nat -> res (option pystr).
(** [sessions.list_recent_sessions(limit)] and [sessions.get_session_by_id],
    reads of the session catalog on disk. *)
Variable list_recent_sessions : nat -> list SessionInfo.
Variable get_session_by_id : pystr -> option SessionInfo.
(** [str.lower] *)
Variable lower : pystr -> pystr.
(** [int(s)] on a string, [None] for a [ValueError]. *)
Variable int_of : pystr -> option Z.

Notation "x <- m ;; k" := (bind m (fun x => k))
  (at level 100, m at next level, right associativity).
Notation "m ;;; k" := (bind m (fun _ => k))
  (at level 100, right associativity).

(** [await api.send_message(room_id, text)], the result unused. *)
Definition send (room text : pystr) : M unit :=
  api_send_message oracle room text ;;; ret tt.

Definition handle_start (room : pystr) : M unit := send room start_text.

Definition handle_connect (room arg : pystr) : M unit :=
  state <- get_state room ;;
  if negb (truthy arg) then send room usage_text
  else match int_of arg with
  | None => send room invalid_text
  | Some index =>
      match pending_sessions state with
      | [] => send room no_list_text
      | pending =>
          if (index <? 1)%Z || (Z.of_nat (length pending) <? index)%Z then
            send room (out_of_range_text (length pending))
          else match nth_error pending (Z.to_nat (index - 1)) with
          | None => raise (PyException (lit "IndexError"))
          | Some selected =>
              match get_session_by_id (si_session_id selected) with
              | None => send room not_found_text
              | Some session =>
                  modify_state room (set_session (Some (si_session_id session))
                                                 (Some (si_cwd session))
                                                 (session_label_of session)) ;;;
                  send room (connected_text (session_label_of session) session
                                            (skip_permissions state))
              end
          end
      end
  end.

Definition handle_disconnect (room : pystr) : M unit :=
  state <- get_state room ;;
  match session_id state with
  | None => send room (lit "Not connected to any session.")
  | Some _ =>
      modify_state room (set_session None None []) ;;;
      send room (lit "Disconnected from: " ++ session_label state)
  end.

Definition handle_status (room : pystr) : M unit :=
  state <- get_state room ;;
  let connected :=
    match session_id state with
    | None => lit "Not connected"
    | Some sid =>
        lit "**Connected to:** " ++ session_label state ++ [NL] ++
        lit "**Session ID:** " ++ sid ++ [NL] ++
        lit "**Working dir:** " ++ py_str_opt (session_cwd state)
    end in
  send room (connected ++ [NL] ++ lit "**Mode:** " ++ mode_text (skip_permissions state)).

Definition handle_safe (room : pystr) : M unit :=
  state <- get_state room ;;
  modify_state room (set_skip (negb (skip_permissions state))) ;;;
  if negb (skip_permissions state) then send room skip_mode_text
  else send room safe_mode_text.

(** [await api.send_card_message(room_id, card, fallback_text)]. *)
Definition send_card_message (room : pystr) (sessions : list SessionInfo) : BM (option pystr) :=
  fun w => (mkBWorld (brooms w) (btrace w ++ [(ApiSendCard room sessions, brooms w)])
                     (S (btick w)),
            ans_card (btick w)).

(** [s.display.strip().lower() not in _SKIP_DISPLAYS] *)
Definition useful_display (lower : pystr -> pystr) (s : SessionInfo) : bool :=
  negb (bool_decide (lower (strip (si_display s)) ∈ _SKIP_DISPLAYS)).

(** The sessions [handle_sessions] offers: filtered on the display
    names, all of them if none is left, at most five. *)
Definition offered_sessions (all_sessions : list SessionInfo) : list SessionInfo :=
  let filtered :=
    List.filter (useful_display lower) all_sessions in
  let filtered := match filtered with [] => all_sessions | _ => filtered end in
  firstn 5 filtered.

Definition handle_sessions (room : pystr) : BM unit :=
  bbind (lift (get_state room)) (fun _ =>
  match list_recent_sessions 20 with
  | [] => lift (send room (lit "No recent sessions found."))
  | all_sessions =>
      let filtered := offered_sessions all_sessions in
      bbind (lift (modify_state room (set_pending filtered))) (fun _ =>
      bbind (send_card_message room filtered) (fun _ => bret tt))
  end).

Definition run_command (cmd : Command) (room : pystr) : BM unit :=
  match cmd with
  | CmdStart => lift (handle_start room)
  | CmdSessions => handle_sessions room
  | CmdDisconnect => lift (handle_disconnect room)
  | CmdStatus => lift (handle_status room)
  | CmdSafe => lift (handle_safe room)
  end.

Definition dispatch (room text : pystr) : BM unit :=
  let stripped := strip text in
  if negb (is_prefix (lit "/") stripped) then
    lift (handle_text_message oracle WEBEX_MAX_MESSAGE_BYTES room stripped)
  else
    match split_ws1 stripped with
    | [] => lift (raise (PyException (lit "IndexError")))
    | first :: rest =>
        let command := lower first in
        let arg := match rest with a :: _ => a | [] => [] end in
        if bool_decide (command = lit "/connect") then lift (handle_connect room (strip arg))
        else match lookup_command command with
        | Some cmd => run_command cmd room
        | None =>
            lift (send room (lit "Unknown command: `" ++ command ++ lit "`" ++ [NL] ++
                             lit "Use `/help` for available commands."))
        end
    end.

End Handlers.

(** [sep.join(l)] *)
Fixpoint join_with (sep : pystr) (l : list pystr) : pystr :=
  match l with
  | [] => []
  | [x] => x
  | x :: r => x ++ sep ++ join_with sep r
  end.

(** [_short_path(cwd)] when [Path.home()] gives [home] ([None] when it
    raises); [posix_parts] is [PurePosixPath(cwd).parts]. *)
Definition _short_path (posix_parts : pystr -> list pystr) (home : option pystr)
    (cwd : pystr) : pystr :=
  let parts := posix_parts cwd in
  let from_home :=
    match home with
    | Some h =>
        if is_prefix h cwd then
          let relative := skipn (length h) cwd in
          let relative := if is_prefix (lit "/") relative then skipn 1 relative else relative in
          Some (if truthy relative then lit "~/" ++ relative else lit "~")
        else None
    | None => None
    end in
  match from_home with
  | Some r => r
  | None =>
      if 2 <? length parts then
        lit ".../" ++ join_with (lit "/") (skipn (length parts - 2) parts)
      else cwd
  end.

End Bot.

(* ===================================================================== *)
(** ** Predicates used to state properties of the poll loop and handlers *)
(* ===================================================================== *)

Module PollSpec.
Import Poll.

(** A room has a last-seen cursor exactly when it is initialized. *)
Definition cursors_match (ps : PollState) : Prop :=
  forall r, is_Some (last_seen ps !! r) <-> r ∈ initialized_rooms ps.

End PollSpec.

Module BotSpec.
Import Turn Bot.

Definition is_cli_send (c : Call) : bool :=
  match c with CliSend _ _ _ _ => true | _ => false end.

(** [m] keeps every room's [processing] flag and makes no call to the
    Claude CLI. *)
Definition tame {A} (m : M A) : Prop :=
  forall w,
    (forall r, processing (state_of (rooms (fst (m w))) r) = processing (state_of (rooms w) r)) /\
    exists ext, trace (fst (m w)) = trace w ++ ext /\
                Forall (fun p => is_cli_send (fst p) = false) ext.

Definition btame {A} (m : BM A) : Prop :=
  forall w,
    (forall r, processing (state_of (brooms (fst (m w))) r) =
               processing (state_of (brooms w) r)) /\
    exists ext, btrace (fst (m w)) = btrace w ++ ext /\
                Forall (fun p => is_cli_call (fst p) = false) ext.

End BotSpec.

(* ===================================================================== *)
(** ** Reading the splitter's output back                                *)
(* ===================================================================== *)

Module SplitterSpec.
Import Splitter.

(** ["\n".join(lines)] *)
Definition join_nl (lines : list pystr) : pystr :=
  match lines with
  | [] => []
  | l :: rest => l ++ flat_map (fun x => NL :: x) rest
  end.

(** The chunks rebuild [t] when consecutive chunks are joined either
    directly (two pieces of one hard-split line) or with one line break
    (a line boundary). *)
Inductive rejoins : list pystr -> pystr -> Prop :=
| rejoins_one (c : pystr) : rejoins [c] c
| rejoins_cons (c sep : pystr) (cs : list pystr) (t : pystr) :
    sep = [] \/ sep = [NL] -> rejoins cs t -> rejoins (c :: cs) (c ++ sep ++ t).

(** The chunk list once the pending [current] is flushed. *)
Definition flush (chunks : list pystr) (current : pystr) : list pystr :=
  if truthy current then chunks ++ [current] else chunks.

End SplitterSpec.

(* ===================================================================== *)
(** ** Byte-budget lemmas for the splitter                               *)
(* ===================================================================== *)

Module SplitterFacts.
Import Splitter.

Lemma byte_len_app (a b : pystr) : byte_len (a ++ b) = byte_len a + byte_len b.
Proof. induction a as [|c a IH]; simpl; [done | rewrite IH; lia]. Qed.

Lemma utf8_len_le_4 (c : N) : utf8_len c <= 4.
Proof. unfold utf8_len; repeat case_match; lia. Qed.

Lemma chars_fit_4 (max_bytes : nat) (s : pystr) :
  4 <= max_bytes -> chars_fit max_bytes s.
Proof.
  intros H. unfold chars_fit. apply Forall_forall. intros c _.
  pose proof (utf8_len_le_4 c). lia.
Qed.

Lemma split_nl_chars (P : N -> Prop) (s : pystr) :
  Forall P s -> Forall (Forall P) (split_nl s).
Proof.
  induction s as [|c s IH]; simpl; intros Hs.
  - repeat constructor.
  - inversion Hs as [|? ? Hc Hr]; subst. specialize (IH Hr).
    destruct (c =? NL)%N.
    + constructor; [constructor | exact IH].
    + destruct (split_nl s) as [|p ps]; repeat constructor; auto.
      * inversion IH; auto.
      * inversion IH; auto.
Qed.

Lemma hard_split_loop_fit (B : nat) (line : pystr) :
  forall parts current,
  chars_fit B line -> all_fit B parts -> byte_len current <= B ->
  all_fit B (fst (hard_split_loop B parts current line)) /\
  byte_len (snd (hard_split_loop B parts current line)) <= B.
Proof.
  induction line as [|ch rest IH]; simpl; intros parts current Hl Hp Hc.
  - done.
  - inversion Hl as [|? ? Hch Hrest]; subst.
    destruct (B <? byte_len (current ++ [ch])) eqn:E.
    + apply IH; auto.
      * unfold all_fit. apply Forall_app. split; [exact Hp | constructor; auto].
      * simpl. lia.
    + apply Nat.ltb_ge in E. apply IH; auto.
Qed.

Lemma hard_split_fit (B : nat) (line : pystr) :
  chars_fit B line -> all_fit B (_hard_split_line line B).
Proof.
  intros Hl. unfold _hard_split_line.
  pose proof (hard_split_loop_fit B line [] [] Hl (List.Forall_nil _) (Nat.le_0_l _)) as [H1 H2].
  destruct (hard_split_loop B [] [] line) as [parts current]; simpl in *.
  destruct (truthy current); [|exact H1].
  apply Forall_app; split; [exact H1 | constructor; auto].
Qed.

Lemma split_loop_fit (B : nat) (lines : list pystr) :
  forall chunks current,
  Forall (chars_fit B) lines -> all_fit B chunks -> byte_len current <= B ->
  all_fit B (fst (split_loop B chunks current lines)) /\
  byte_len (snd (split_loop B chunks current lines)) <= B.
Proof.
  induction lines as [|line rest IH]; simpl; intros chunks current Hl Hch Hc.
  - done.
  - inversion Hl as [|? ? Hline Hrest]; subst.
    assert (Hflush : all_fit B (if truthy current then chunks ++ [current] else chunks)).
    { destruct (truthy current); [|exact Hch].
      apply Forall_app; split; [exact Hch | constructor; auto]. }
    destruct (B <? byte_len (if truthy current then current ++ NL :: line else line)) eqn:E.
    + destruct (B <? byte_len line) eqn:E2.
      * apply IH; auto; [|simpl; lia].
        apply Forall_app; split; [exact Hflush | apply hard_split_fit; exact Hline].
      * apply Nat.ltb_ge in E2. apply IH; auto.
    + apply Nat.ltb_ge in E. apply IH; auto.
Qed.

End SplitterFacts.

Module SplitterClaims.
Import Splitter SplitterFacts.

(** C3 (as stated, refuted): with a budget of one byte, the two-byte
    character U+00E9 is emitted as a chunk of two bytes. *)
Lemma split_message_wide_char_exceeds_budget :
  ~ (forall (s : pystr) (B : nat), 0 < B ->
       Forall (fun chunk => byte_len chunk <= B) (split_message s B)).
Proof.
  intros H. specialize (H [233%N] 1 ltac:(lia)).
  vm_compute in H. inversion H as [|? ? _ H2]; subst.
  inversion H2 as [|? ? H3 _]; subst. lia.
Qed.

(** C3 (amended): when every character of the input encodes in at most
    [B] bytes (in particular whenever [B >= 4]), every chunk returned by
    [split_message s B] has a UTF-8 length of at most [B] bytes. *)
Theorem split_message_chunks_fit (s : pystr) (B : nat) :
  4 <= B \/ chars_fit B s ->
  Forall (fun chunk => byte_len chunk <= B) (split_message s B).
Proof.
  intros Hb. assert (Hs : chars_fit B s) by (destruct Hb; [apply chars_fit_4|]; done).
  unfold split_message.
  destruct (byte_len s <=? B) eqn:E.
  - apply Nat.leb_le in E. constructor; [exact E | constructor].
  - pose proof (split_loop_fit B (split_nl s) [] []
                  (split_nl_chars _ s Hs) (List.Forall_nil _) (Nat.le_0_l _)) as [H1 H2].
    destruct (split_loop B [] [] (split_nl s)) as [chunks current]; simpl in *.
    destruct (truthy current); [|exact H1].
    apply Forall_app; split; [exact H1 | constructor; auto].
Qed.

Lemma split_message_chunks_fit_witness :
  (4 <= 4 \/ chars_fit 4 (lit "caf" ++ [233%N])) /\
  Forall (fun chunk => byte_len chunk <= 4) (split_message (lit "caf" ++ [233%N]) 4).
Proof.
  split; [left; lia|]. apply split_message_chunks_fit. left; lia.
Defined.

(** C1 (code defect): a blank line that falls on a chunk boundary is lost.
    With a budget of 3 bytes, ["aaa\n\nbbb"] and ["aaa\nbbb"] split into
    the same chunks ["aaa"; "bbb"], so no way of rejoining the chunks
    rebuilds both inputs. *)
Theorem split_message_loses_blank_line :
  split_message (lit "aaa" ++ [NL; NL] ++ lit "bbb") 3 = [lit "aaa"; lit "bbb"] /\
  split_message (lit "aaa" ++ [NL] ++ lit "bbb") 3 = [lit "aaa"; lit "bbb"] /\
  forall join : list pystr -> pystr,
    ~ (join (split_message (lit "aaa" ++ [NL; NL] ++ lit "bbb") 3)
         = lit "aaa" ++ [NL; NL] ++ lit "bbb" /\
       join (split_message (lit "aaa" ++ [NL] ++ lit "bbb") 3)
         = lit "aaa" ++ [NL] ++ lit "bbb").
Proof.
  assert (E1 : split_message (lit "aaa" ++ [NL; NL] ++ lit "bbb") 3 = [lit "aaa"; lit "bbb"])
    by (vm_compute; reflexivity).
  assert (E2 : split_message (lit "aaa" ++ [NL] ++ lit "bbb") 3 = [lit "aaa"; lit "bbb"])
    by (vm_compute; reflexivity).
  split; [exact E1|]. split; [exact E2|].
  intros join [H1 H2]. rewrite E1 in H1. rewrite E2 in H2.
  rewrite H1 in H2. vm_compute in H2. discriminate.
Qed.

(** C4 (code defect): an input made only of line breaks that exceeds the
    budget yields no chunk at all, and the hard splitter emits an empty
    first part when the first character alone exceeds the budget. *)
Theorem split_message_empty_results :
  split_message [NL; NL] 1 = [] /\
  _hard_split_line [233%N] 1 = [[]; [233%N]].
Proof. split; vm_compute; reflexivity. Qed.

End SplitterClaims.

(* ===================================================================== *)
(** ** The single-flight guard                                           *)
(* ===================================================================== *)

Module TurnFacts.
Import Splitter Turn.

Lemma keeps_ret room {A} (a : A) : keeps room (ret a).
Proof. intros w _. split; [done|]. exists []. rewrite app_nil_r. done. Qed.

Lemma keeps_raise room {A} (e : exn) : keeps room (@raise A e).
Proof. intros w _. split; [done|]. exists []. rewrite app_nil_r. done. Qed.

Lemma keeps_await room {A} (c : Call) (ans : nat -> res A) :
  keeps room (await_call c ans).
Proof. intros w _. split; [done|]. exists [(c, rooms w)]. simpl. split; [done|]. repeat constructor. Qed.

Lemma keeps_get_state room : keeps room (get_state room).
Proof.
  intros w [s Hs]. unfold get_state. rewrite Hs. simpl.
  split; [done|]. exists []. rewrite app_nil_r. done.
Qed.

Lemma keeps_bind room {A B} (m : M A) (k : A -> M B) :
  keeps room m -> (forall a, keeps room (k a)) -> keeps room (bind m k).
Proof.
  intros Hm Hk w Hw. unfold bind.
  destruct (Hm w Hw) as [R1 [ext1 [T1 F1]]].
  destruct (m w) as [w1 [a|e]] eqn:E; simpl in *.
  - rewrite <- R1 in Hw. destruct (Hk a w1 Hw) as [R2 [ext2 [T2 F2]]].
    split; [congruence|]. exists (ext1 ++ ext2). split.
    + rewrite T2, T1, app_assoc. done.
    + apply Forall_app. split; [done|]. rewrite <- R1. done.
  - split; [done|]. exists ext1. done.
Qed.

Lemma keeps_attempt room {A} (m : M A) : keeps room m -> keeps room (attempt m).
Proof.
  intros Hm w Hw. unfold attempt. destruct (Hm w Hw) as [R [ext [T F]]].
  destruct (m w) as [w1 r]. simpl in *. eauto.
Qed.

Create HintDb keeps_db.
#[local] Hint Resolve keeps_ret keeps_raise keeps_await keeps_get_state
  keeps_attempt : keeps_db.

Ltac keeps_step :=
  match goal with
  | |- keeps _ (bind _ _) => apply keeps_bind; [|intros ?]
  | |- keeps _ (attempt _) => apply keeps_attempt
  | |- keeps _ (match ?x with _ => _ end) => destruct x
  | |- keeps _ (if ?b then _ else _) => destruct b
  | |- keeps _ _ => eauto with keeps_db
  end.

Lemma keeps_send_all o room room_id chunks :
  keeps room (send_all o room_id chunks).
Proof.
  induction chunks as [|c rest IH]; simpl; repeat keeps_step.
Qed.
#[local] Hint Resolve keeps_send_all : keeps_db.

Lemma keeps_guarded o B room text : keeps room (guarded o B room text).
Proof.
  unfold guarded, on_error, relay_response, api_send_message, api_edit_message,
    cli_send_message.
  repeat keeps_step.
Qed.

Lemma handle_text_message_busy o B room text w s :
  rooms w !! room = Some s -> is_Some (session_id s) -> processing s = true ->
  handle_text_message o B room text w = busy_outcome o room w.
Proof.
  intros Hs [sid Hsid] Hp. unfold handle_text_message, bind, get_state.
  rewrite Hs, Hsid, Hp. unfold api_send_message, await_call, busy_outcome. simpl.
  destruct (ans_send o (tick w)); reflexivity.
Qed.

End TurnFacts.

Module TurnClaims.
Import Splitter Turn TurnFacts.

(** C2: a turn that claims the single-flight guard of a connected room
    ends, whatever the outside world answers (replies, exceptions of
    either kind, the CLI's timeout message), with the guard of that room
    cleared. While it is suspended on any of its awaited calls the guard
    is set, and a second turn for the same room started at that moment
    sends only the busy reply: it leaves the room table unchanged and
    makes no CLI call, so the first turn resumes on the same state. *)
Theorem handle_text_message_single_flight (o : Oracle) (B : nat) (room text : pystr)
    (w : World) (st : BotState) :
  rooms w !! room = Some st -> is_Some (session_id st) -> processing st = false ->
  (exists st', rooms (fst (handle_text_message o B room text w)) !! room = Some st' /\
               processing st' = false) /\
  exists ext,
    trace (fst (handle_text_message o B room text w)) = trace w ++ ext /\
    Forall (fun p =>
      (exists s, snd p !! room = Some s /\ processing s = true) /\
      forall (o2 : Oracle) (text2 : pystr) (w2 : World), rooms w2 = snd p ->
        handle_text_message o2 B room text2 w2 = busy_outcome o2 room w2) ext.
Proof.
  intros Hs [sid Hsid] Hp.
  set (st1 := set_processing true st).
  set (w1 := mkWorld (<[room := st1]> (rooms w)) (trace w) (tick w)).
  assert (Hw1 : rooms w1 !! room = Some st1) by (simpl; apply lookup_insert_eq).
  assert (E : handle_text_message o B room text w =
              try_finally (guarded o B room text)
                          (modify_state room (set_processing false)) w1).
  { unfold handle_text_message, bind at 1, get_state. rewrite Hs, Hsid, Hp.
    unfold bind, modify_state. rewrite Hs. reflexivity. }
  rewrite E.
  destruct (keeps_guarded o B room text w1 ltac:(rewrite Hw1; eauto))
    as [R [ext [T F]]].
  unfold try_finally, modify_state.
  destruct (guarded o B room text w1) as [w2 r] eqn:G. cbn [fst] in R, T.
  rewrite R, Hw1. simpl. split.
  - eexists. split; [apply lookup_insert_eq | reflexivity].
  - exists ext. split; [exact T|].
    eapply Forall_impl; [exact F|]. intros [c snap] Hsnap. simpl in Hsnap. subst snap.
    split.
    + exists st1. split; [exact Hw1 | reflexivity].
    + intros o2 text2 w3 Hw3. eapply handle_text_message_busy.
      * rewrite Hw3. exact Hw1.
      * simpl. eauto.
      * reflexivity.
Qed.

Lemma handle_text_message_single_flight_witness :
  let st := mkBotState (Some (lit "s1")) (Some (lit "/srv")) (lit "demo") false [] false in
  let w := mkWorld {[ lit "room" := st ]} [] 0 in
  let o := mkOracle (fun _ => Ok (Some (lit "m1"))) (fun _ => Ok false)
                    (fun _ => Ok (lit "hello")) in
  (rooms w !! lit "room" = Some st /\ is_Some (session_id st) /\ processing st = false) /\
  ((exists st', rooms (fst (handle_text_message o 100 (lit "room") (lit "hi") w))
                  !! lit "room" = Some st' /\ processing st' = false) /\
   exists ext,
     trace (fst (handle_text_message o 100 (lit "room") (lit "hi") w)) = trace w ++ ext /\
     Forall (fun p =>
       (exists s, snd p !! lit "room" = Some s /\ processing s = true) /\
       forall (o2 : Oracle) (text2 : pystr) (w2 : World), rooms w2 = snd p ->
         handle_text_message o2 100 (lit "room") text2 w2
           = busy_outcome o2 (lit "room") w2) ext).
Proof.
  intros st w o.
  assert (H1 : rooms w !! lit "room" = Some st) by (simpl; apply lookup_insert_eq).
  assert (H2 : is_Some (session_id st)) by (simpl; eauto).
  assert (H3 : processing st = false) by reflexivity.
  split; [split; [exact H1 | split; [exact H2 | exact H3]]|].
  exact (handle_text_message_single_flight o 100 (lit "room") (lit "hi") w st H1 H2 H3).
Defined.

End TurnClaims.

Module PollClaims.
Import Poll.

(** C5: the first poll of a room with a non-empty page records the newest
    message id as the cursor, marks the room initialized and dispatches
    nothing. *)
Theorem poll_room_first_poll (auth : option pystr -> bool) (bot_id : option pystr)
    (ps : PollState) (room_id : pystr) (newest : Msg) (older : list Msg) :
  room_id ∉ initialized_rooms ps ->
  poll_room auth bot_id ps room_id (newest :: older) =
    (mkPollState (<[room_id := msg_id newest]> (last_seen ps))
                 ({[room_id]} ∪ initialized_rooms ps), []).
Proof. intros H. unfold poll_room, poll_room_run. rewrite decide_False by exact H. reflexivity. Qed.

Lemma poll_room_first_poll_witness :
  (lit "r" ∉ initialized_rooms (mkPollState ∅ ∅)) /\
  poll_room (fun _ => true) None (mkPollState ∅ ∅) (lit "r")
    (mkMsg (lit "m2") (Some (lit "u")) (JString (lit "a@b")) (JString (lit "hi")) ::
     [mkMsg (lit "m1") (Some (lit "u")) (JString (lit "a@b")) (JString (lit "yo"))]) =
  (mkPollState (<[lit "r" := lit "m2"]> ∅) ({[lit "r"]} ∪ ∅), []).
Proof.
  assert (H : lit "r" ∉ initialized_rooms (mkPollState ∅ ∅)) by (simpl; set_solver).
  split; [exact H|]. exact (poll_room_first_poll _ _ _ _ _ _ H).
Defined.

Lemma event_of_step (auth : option pystr -> bool) (bot_id : option pystr)
    (room_id : pystr) (m : Msg) (ev : pystr * pystr) :
  event_of auth bot_id room_id m = Some ev -> msg_step auth bot_id room_id m = MDispatch ev.
Proof. unfold event_of. destruct (msg_step auth bot_id room_id m); congruence. Qed.

(** C6: with cursor [X] and the newest-first page [A; B; X; C] (message
    ids distinct from [X]'s above it), the dispatch calls are those of
    [B] then [A]; [X] and [C] are not dispatched, and the cursor moves to
    [A]'s id. Here [A] and [B] are messages that pass the per-message
    filters (not from the bot, authorized sender, non-blank text). *)
Theorem poll_room_dispatches_newer (auth : option pystr -> bool) (bot_id : option pystr)
    (ps : PollState) (room_id : pystr) (A B X C : Msg) (evA evB : pystr * pystr) :
  room_id ∈ initialized_rooms ps ->
  last_seen ps !! room_id = Some (msg_id X) ->
  msg_id A <> msg_id X -> msg_id B <> msg_id X ->
  event_of auth bot_id room_id A = Some evA ->
  event_of auth bot_id room_id B = Some evB ->
  poll_room auth bot_id ps room_id [A; B; X; C] =
    (mkPollState (<[room_id := msg_id A]> (last_seen ps)) (initialized_rooms ps),
     [evB; evA]).
Proof.
  intros Hi Hl HA HB EA EB. unfold poll_room, poll_room_run.
  rewrite decide_True by exact Hi. rewrite Hl.
  rewrite decide_False by congruence.
  cbn [collect_new]. rewrite decide_False by congruence. rewrite decide_False by congruence.
  rewrite decide_True by reflexivity. cbn [rev app dispatch_loop].
  rewrite (event_of_step _ _ _ _ _ EB), (event_of_step _ _ _ _ _ EA). reflexivity.
Qed.

Lemma poll_room_dispatches_newer_witness :
  let A := mkMsg (lit "a") (Some (lit "u")) (JString (lit "u@x")) (JString (lit "second")) in
  let B := mkMsg (lit "b") (Some (lit "u")) (JString (lit "u@x")) (JString (lit " first ")) in
  let X := mkMsg (lit "x") (Some (lit "u")) (JString (lit "u@x")) (JString (lit "seen")) in
  let C := mkMsg (lit "c") (Some (lit "u")) (JString (lit "u@x")) (JString (lit "old")) in
  let ps := mkPollState {[lit "r" := lit "x"]} {[lit "r"]} in
  poll_room (fun _ => true) (Some (lit "bot")) ps (lit "r") [A; B; X; C] =
    (mkPollState (<[lit "r" := lit "a"]> (last_seen ps)) (initialized_rooms ps),
     [(lit "r", lit "first"); (lit "r", lit "second")]).
Proof.
  intros A B X C ps.
  apply (poll_room_dispatches_newer _ _ ps (lit "r") A B X C).
  - simpl. set_solver.
  - simpl. apply lookup_insert_eq.
  - simpl. discriminate.
  - simpl. discriminate.
  - vm_compute. reflexivity.
  - vm_compute. reflexivity.
Defined.

Lemma collect_new_absent (x : pystr) (messages : list Msg) :
  Forall (fun msg => msg_id msg <> x) messages ->
  collect_new (Some x) messages = messages.
Proof.
  induction messages as [|msg rest IH]; simpl; intros H; [done|].
  inversion H as [|? ? Hm Hr]; subst.
  rewrite decide_False by congruence. rewrite IH by exact Hr. done.
Qed.

Lemma msg_step_no_null (auth : option pystr -> bool) (bot_id : option pystr)
    (room_id : pystr) (m : Msg) :
  msg_text m <> JNull -> msg_step auth bot_id room_id m <> MAttributeError.
Proof.
  intros Hn. unfold msg_step. destruct (decide (msg_personId m = bot_id)); [discriminate|].
  destruct (negb (auth (get_or_empty (msg_personEmail m)))); [discriminate|].
  destruct (msg_text m) as [| |t]; cbn [get_or_empty]; [|contradiction|];
    destruct (truthy (strip _)); discriminate.
Qed.

Lemma dispatch_all_no_null (auth : option pystr -> bool) (bot_id : option pystr)
    (room_id : pystr) (l : list Msg) :
  Forall (fun m => msg_text m <> JNull) l ->
  dispatch_all auth bot_id room_id l = omap (event_of auth bot_id room_id) l.
Proof.
  unfold dispatch_all. induction l as [|m l IH]; intros Hl; [reflexivity|].
  pose proof (Forall_inv Hl) as Hm. pose proof (IH (Forall_inv_tail Hl)) as IH'.
  cbn [dispatch_loop].
  change (omap (event_of auth bot_id room_id) (m :: l)) with
    (match event_of auth bot_id room_id m with
     | Some y => y :: omap (event_of auth bot_id room_id) l
     | None => omap (event_of auth bot_id room_id) l end).
  unfold event_of at 1.
  pose proof (msg_step_no_null auth bot_id room_id m Hm) as Hs.
  destruct (msg_step auth bot_id room_id m) as [|ev|]; [exact IH'| |contradiction].
  destruct (dispatch_loop auth bot_id room_id l) as [evs raised]. cbn [fst] in *.
  rewrite IH'. reflexivity.
Qed.

(** C10: when the cursor id of an initialized room appears nowhere in the
    fetched page, the whole page, oldest first, goes through the dispatch
    loop as new messages (messages older than the cursor included), and
    the cursor moves to the newest id. When no message of the page has a
    [null] text, every message of the page that passes the per-message
    filters is dispatched, oldest first. (A [null] text that reaches
    [.strip()] raises there and ends the loop.) *)
Theorem poll_room_cursor_missing (auth : option pystr -> bool) (bot_id : option pystr)
    (ps : PollState) (room_id x : pystr) (newest : Msg) (older : list Msg) :
  room_id ∈ initialized_rooms ps ->
  last_seen ps !! room_id = Some x ->
  Forall (fun msg => msg_id msg <> x) (newest :: older) ->
  poll_room auth bot_id ps room_id (newest :: older) =
    (mkPollState (<[room_id := msg_id newest]> (last_seen ps)) (initialized_rooms ps),
     dispatch_all auth bot_id room_id (rev (newest :: older))) /\
  (Forall (fun msg => msg_text msg <> JNull) (newest :: older) ->
   snd (poll_room auth bot_id ps room_id (newest :: older)) =
     omap (event_of auth bot_id room_id) (rev (newest :: older))).
Proof.
  intros Hi Hl Hf.
  assert (E : poll_room auth bot_id ps room_id (newest :: older) =
    (mkPollState (<[room_id := msg_id newest]> (last_seen ps)) (initialized_rooms ps),
     dispatch_all auth bot_id room_id (rev (newest :: older)))).
  { unfold poll_room, poll_room_run.
    rewrite decide_True by exact Hi. rewrite Hl.
    inversion Hf as [|? ? Hn _]; subst.
    rewrite decide_False by congruence.
    rewrite collect_new_absent by exact Hf. unfold dispatch_all.
    destruct (dispatch_loop auth bot_id room_id (rev (newest :: older))). reflexivity. }
  split; [exact E|]. intros Hn. rewrite E. cbn [snd].
  apply dispatch_all_no_null. apply Forall_forall. intros m Hm.
  apply (proj1 (Forall_forall _ _) Hn). apply list_elem_of_In in Hm. apply in_rev in Hm.
  apply list_elem_of_In. exact Hm.
Qed.

Lemma poll_room_cursor_missing_witness :
  let M1 := mkMsg (lit "m3") (Some (lit "u")) (JString (lit "u@x")) (JString (lit "new")) in
  let M2 := mkMsg (lit "m1") (Some (lit "u")) (JString (lit "u@x")) (JString (lit "old")) in
  let ps := mkPollState {[lit "r" := lit "m2"]} {[lit "r"]} in
  poll_room (fun _ => true) None ps (lit "r") [M1; M2] =
    (mkPollState (<[lit "r" := lit "m3"]> (last_seen ps)) (initialized_rooms ps),
     [(lit "r", lit "old"); (lit "r", lit "new")]).
Proof.
  intros M1 M2 ps.
  rewrite (proj1 (poll_room_cursor_missing _ _ ps (lit "r") (lit "m2") M1 [M2]
                    ltac:(simpl; set_solver) ltac:(simpl; apply lookup_insert_eq)
                    ltac:(repeat constructor; simpl; discriminate))).
  vm_compute. reflexivity.
Defined.

End PollClaims.

Module ClientClaims.
Import Webex.

(** C7: at any iteration of the retry loop, whatever the attempt number
    and however many iterations are left, a 401 reply ends the request at
    once with [SystemExit]: the request of that attempt is the last one
    made and no wait follows. *)
Theorem request_loop_401_fatal (reply : nat -> Reply) (remaining attempt : nat)
    (retry_after : option pystr) (json : option pystr) :
  reply attempt = Response 401 retry_after json ->
  request_loop reply (S remaining) attempt =
    ([Requested attempt],
     RaisedSystemExit (lit "Fatal: Webex API returned 401 Unauthorized.")).
Proof. intros H. simpl. rewrite H. reflexivity. Qed.

Lemma request_loop_401_fatal_witness :
  let reply := fun a => match a with
                        | 1 => Response 503 None None
                        | _ => Response 401 None None end in
  _request reply true =
    ([Requested 1; Slept 2; Requested 2],
     RaisedSystemExit (lit "Fatal: Webex API returned 401 Unauthorized.")).
Proof.
  intros reply. unfold _request, MAX_RETRIES.
  change (request_loop reply 3 1) with
    (prepend [Requested 1; Slept (backoff 1)] (request_loop reply 2 2)).
  rewrite (request_loop_401_fatal reply 1 2 None None) by reflexivity.
  reflexivity.
Defined.

End ClientClaims.

Module CliClaims.
Import Cli.

(** C8: when the child outlives the timeout, [send_message] kills it,
    waits for it and returns the timeout message; it does not raise. *)
Theorem send_message_timeout (decode : list Byte.byte -> pystr) (lower : pystr -> pystr)
    (timeout_str : pystr) (env : CliEnv) (claude_path session_id message cwd : pystr)
    (skip_permissions : bool) :
  which_claude env = Some claude_path -> spawn env = Spawned ->
  communicate env = TimedOut ->
  send_message decode lower timeout_str env session_id message cwd skip_permissions =
    ([Started (command claude_path session_id message skip_permissions) cwd; Killed; Waited],
     Turn.Ok (timeout_text timeout_str)).
Proof.
  intros Hw Hs Hc. unfold send_message. rewrite Hw, Hs, Hc. reflexivity.
Qed.

Lemma send_message_timeout_witness :
  send_message (fun _ => []) (fun s => s) (lit "300")
    (mkCliEnv (Some (lit "/usr/bin/claude")) Spawned TimedOut)
    (lit "abc") (lit "hello") (lit "/srv") false =
  ([Started (command (lit "/usr/bin/claude") (lit "abc") (lit "hello") false) (lit "/srv");
    Killed; Waited],
   Turn.Ok (lit "Error: CLI timed out after 300 seconds. The process was killed.")).
Proof.
  apply (send_message_timeout _ _ (lit "300")
           (mkCliEnv (Some (lit "/usr/bin/claude")) Spawned TimedOut));
    reflexivity.
Defined.

(** C9: two runs that differ only in the child's stderr return the same
    string as soon as the credential hint is decided the same way for both
    (for any decoder and any lowercasing); on a non-zero exit the returned
    string is the fixed error text for the exit code, followed by the fixed
    hint exactly when the hint applies. *)
Theorem send_message_stderr_hidden (decode : list Byte.byte -> pystr)
    (lower : pystr -> pystr) (timeout_str : pystr) (which : option pystr) (sp : Spawn)
    (stdout stderr1 stderr2 : list Byte.byte) (returncode : Z)
    (session_id message cwd : pystr) (skip_permissions : bool) :
  hint_applies decode lower stderr1 = hint_applies decode lower stderr2 ->
  snd (send_message decode lower timeout_str (mkCliEnv which sp (Finished stdout stderr1 returncode))
         session_id message cwd skip_permissions) =
  snd (send_message decode lower timeout_str (mkCliEnv which sp (Finished stdout stderr2 returncode))
         session_id message cwd skip_permissions) /\
  (which <> None -> sp = Spawned -> returncode <> 0%Z ->
   snd (send_message decode lower timeout_str (mkCliEnv which sp (Finished stdout stderr1 returncode))
          session_id message cwd skip_permissions) =
   Turn.Ok (if hint_applies decode lower stderr1
            then exit_error_text returncode ++ credentials_hint
            else exit_error_text returncode)).
Proof.
  intros Hh. unfold hint_applies in Hh. split.
  - unfold send_message. cbn [which_claude spawn communicate snd].
    destruct which as [p|]; [|reflexivity].
    destruct sp; try reflexivity. cbv zeta.
    destruct (negb (returncode =? 0)%Z); [|reflexivity].
    rewrite Hh. reflexivity.
  - intros Hw Hs Hr. subst sp. destruct which as [p|]; [|congruence].
    unfold send_message, hint_applies; simpl.
    destruct (returncode =? 0)%Z eqn:E; [apply Z.eqb_eq in E; congruence|].
    reflexivity.
Qed.

Lemma send_message_stderr_hidden_witness :
  let dec := fun (b : list Byte.byte) => map (fun x => N.of_nat (Byte.to_nat x)) b in
  let err1 := map (fun c => match Byte.of_N c with Some b => b | None => Byte.x00 end)
                  (lit "token sk-123 leaked") in
  let err2 := map (fun c => match Byte.of_N c with Some b => b | None => Byte.x00 end)
                  (lit "other failure") in
  hint_applies dec (fun s => s) err1 = hint_applies dec (fun s => s) err2 /\
  snd (send_message dec (fun s => s) (lit "300")
         (mkCliEnv (Some (lit "claude")) Spawned (Finished [] err1 1%Z))
         (lit "abc") (lit "hi") (lit "/srv") true) =
  snd (send_message dec (fun s => s) (lit "300")
         (mkCliEnv (Some (lit "claude")) Spawned (Finished [] err2 1%Z))
         (lit "abc") (lit "hi") (lit "/srv") true).
Proof.
  intros dec err1 err2.
  assert (H : hint_applies dec (fun s => s) err1 = hint_applies dec (fun s => s) err2)
    by (vm_compute; reflexivity).
  split; [exact H|].
  exact (proj1 (send_message_stderr_hidden dec (fun s => s) (lit "300") (Some (lit "claude"))
                  Spawned [] err1 err2 1%Z (lit "abc") (lit "hi") (lit "/srv") true H)).
Defined.

End CliClaims.

(* ===================================================================== *)
(** ** Further properties of the splitter                                *)
(* ===================================================================== *)

Module SplitterMore.
Import Splitter SplitterSpec SplitterFacts.

Lemma split_nl_not_nil (s : pystr) : split_nl s <> [].
Proof.
  induction s as [|c s IH]; simpl; [discriminate|].
  destruct (c =? NL)%N; [discriminate|]. destruct (split_nl s); discriminate.
Qed.

Lemma join_split_nl (s : pystr) : join_nl (split_nl s) = s.
Proof.
  induction s as [|c s IH]; simpl; [reflexivity|].
  destruct (c =? NL)%N eqn:E.
  - apply N.eqb_eq in E. subst c. simpl.
    destruct (split_nl s) as [|p ps] eqn:Es; [by destruct (split_nl_not_nil s)|].
    simpl in *. rewrite IH. reflexivity.
  - destruct (split_nl s) as [|p ps] eqn:Es; [by destruct (split_nl_not_nil s)|].
    simpl in *. rewrite IH. reflexivity.
Qed.

Lemma split_nl_no_nl (s : pystr) : ~ In NL s -> split_nl s = [s].
Proof.
  induction s as [|c s IH]; simpl; intros H; [reflexivity|].
  destruct (c =? NL)%N eqn:E.
  - apply N.eqb_eq in E. subst. tauto.
  - rewrite IH by tauto. reflexivity.
Qed.

Lemma hard_split_loop_concat (B : nat) (line : pystr) :
  forall parts current,
  concat (fst (hard_split_loop B parts current line)) ++
    snd (hard_split_loop B parts current line) = concat parts ++ current ++ line.
Proof.
  induction line as [|ch rest IH]; simpl; intros parts current.
  - rewrite app_nil_r. reflexivity.
  - destruct (B <? byte_len (current ++ [ch])); rewrite IH.
    + rewrite concat_app. simpl. rewrite app_nil_r, <- !app_assoc. reflexivity.
    + rewrite <- !app_assoc. reflexivity.
Qed.

Lemma hard_split_concat (B : nat) (line : pystr) :
  concat (_hard_split_line line B) = line.
Proof.
  unfold _hard_split_line.
  pose proof (hard_split_loop_concat B line [] []) as H.
  destruct (hard_split_loop B [] [] line) as [parts current]. simpl in H.
  destruct current as [|c cs]; simpl.
  - rewrite app_nil_r in H. exact H.
  - rewrite concat_app. simpl. rewrite app_nil_r. exact H.
Qed.

Lemma hard_split_loop_nonempty (B : nat) (line : pystr) :
  forall parts current,
  chars_fit B line ->
  Forall (fun p => truthy p = true) parts -> (truthy current = false -> parts = []) ->
  Forall (fun p => truthy p = true) (fst (hard_split_loop B parts current line)) /\
  (truthy (snd (hard_split_loop B parts current line)) = false ->
   fst (hard_split_loop B parts current line) = []).
Proof.
  induction line as [|ch rest IH]; simpl; intros parts current Hl Hp Hc; [done|].
  inversion Hl as [|? ? Hch Hrest]; subst.
  destruct (B <? byte_len (current ++ [ch])) eqn:E.
  - apply Nat.ltb_lt in E. apply IH; [exact Hrest| |done].
    apply Forall_app; split; [exact Hp|]. constructor; [|constructor].
    destruct current as [|c cs]; [|reflexivity]. simpl in E. lia.
  - apply IH; [exact Hrest|exact Hp|]. destruct current; done.
Qed.

Lemma hard_split_nonempty (B : nat) (line : pystr) :
  chars_fit B line -> Forall (fun p => truthy p = true) (_hard_split_line line B).
Proof.
  intros Hl. unfold _hard_split_line.
  pose proof (hard_split_loop_nonempty B line [] [] Hl (List.Forall_nil _) (fun _ => eq_refl))
    as [H1 H2].
  destruct (hard_split_loop B [] [] line) as [parts current]. simpl in *.
  destruct (truthy current) eqn:E; [|exact H1].
  apply Forall_app; split; [exact H1|constructor; [exact E|constructor]].
Qed.

(** [_hard_split_line] loses and adds nothing: its parts concatenate back
    to the line, for every budget. When every character fits in the
    budget, every part is non-empty and at most [B] bytes long. *)
Theorem hard_split_line_roundtrip (line : pystr) (B : nat) :
  concat (_hard_split_line line B) = line /\
  (chars_fit B line ->
   Forall (fun p => truthy p = true /\ byte_len p <= B) (_hard_split_line line B)).
Proof.
  split; [apply hard_split_concat|]. intros Hl.
  pose proof (hard_split_nonempty B line Hl) as H1.
  pose proof (hard_split_fit B line Hl) as H2. unfold all_fit in H2.
  apply Forall_forall. intros p Hp.
  split; [exact (proj1 (Forall_forall _ _) H1 p Hp) | exact (proj1 (Forall_forall _ _) H2 p Hp)].
Qed.

Lemma concat_byte_len (l : list pystr) : byte_len (concat l) = sum_list (map byte_len l).
Proof.
  induction l as [|p l IH]; simpl; [reflexivity|]. rewrite byte_len_app, IH. reflexivity.
Qed.

(** A single line (no line break) whose characters fit in the budget is
    returned whole when it has at most [B] bytes; a longer one is cut by
    the hard splitter into at least two chunks, each of at most [B] bytes,
    which concatenate back to the line. *)
Theorem split_message_single_line (line : pystr) (B : nat) :
  ~ In NL line -> chars_fit B line ->
  (byte_len line <= B -> split_message line B = [line]) /\
  (B < byte_len line ->
   split_message line B = _hard_split_line line B /\
   2 <= length (split_message line B) /\
   concat (split_message line B) = line /\
   Forall (fun c => byte_len c <= B) (split_message line B)).
Proof.
  intros Hnl Hfit. split.
  - intros H. unfold split_message. apply Nat.leb_le in H. rewrite H. reflexivity.
  - intros H.
    assert (E : split_message line B = _hard_split_line line B).
    { unfold split_message. destruct (byte_len line <=? B) eqn:E1;
        [apply Nat.leb_le in E1; lia|].
      rewrite split_nl_no_nl by exact Hnl. simpl.
      assert (E2 : (B <? byte_len line) = true) by (apply Nat.ltb_lt; lia).
      rewrite E2. reflexivity. }
    rewrite E.
    pose proof (hard_split_concat B line) as Hc.
    pose proof (hard_split_fit B line Hfit) as Hf. unfold all_fit in Hf.
    split; [reflexivity|]. split; [|split; [exact Hc | exact Hf]].
    destruct (_hard_split_line line B) as [|p [|q r]] eqn:Eh.
    + simpl in Hc. subst line. simpl in H. lia.
    + simpl in Hc. rewrite app_nil_r in Hc. subst p.
      inversion Hf as [|? ? Hp _]. lia.
    + simpl. lia.
Qed.

Lemma split_message_single_line_witness :
  (~ In NL (lit "abcdef")) /\ chars_fit 4 (lit "abcdef") /\
  split_message (lit "abcdef") 4 = _hard_split_line (lit "abcdef") 4 /\
  2 <= length (split_message (lit "abcdef") 4).
Proof.
  assert (H1 : ~ In NL (lit "abcdef")) by (simpl; unfold NL; intuition discriminate).
  assert (H2 : chars_fit 4 (lit "abcdef")) by (apply chars_fit_4; lia).
  destruct (proj2 (split_message_single_line (lit "abcdef") 4 H1 H2) ltac:(simpl; lia))
    as [E [L _]].
  split; [exact H1|]. split; [exact H2|]. split; [exact E|exact L].
Defined.

Lemma rejoins_app (a b : list pystr) (s t sep : pystr) :
  sep = [] \/ sep = [NL] -> rejoins a s -> rejoins b t -> rejoins (a ++ b) (s ++ sep ++ t).
Proof.
  intros Hsep Ha Hb. induction Ha as [c|c sep0 cs t0 Hs0 _ IH]; simpl.
  - constructor; assumption.
  - rewrite <- !app_assoc. constructor; [exact Hs0|]. rewrite app_assoc in IH.
    rewrite <- app_assoc in IH. exact IH.
Qed.

Lemma rejoins_extend_last (cs : list pystr) (c x t : pystr) :
  rejoins (cs ++ [c]) t -> rejoins (cs ++ [c ++ x]) (t ++ x).
Proof.
  revert t. induction cs as [|d cs IH]; simpl; intros t H.
  - inversion H as [c0|c0 sep cs0 t0 _ Hr]; subst; [constructor|inversion Hr].
  - inversion H as [c0 E|c0 sep cs0 t0 Hs Hr]; subst.
    + destruct cs; discriminate.
    + rewrite <- !app_assoc. constructor; [exact Hs|]. apply IH. exact Hr.
Qed.

Lemma rejoins_concat (ds : list pystr) : ds <> [] -> rejoins ds (concat ds).
Proof.
  induction ds as [|d [|d' ds] IH]; intros H; [done| |].
  - simpl. rewrite app_nil_r. constructor.
  - change (rejoins (d :: d' :: ds) (d ++ [] ++ concat (d' :: ds))).
    constructor; [left; reflexivity|]. apply IH. discriminate.
Qed.

Lemma hard_split_rejoins (B : nat) (line : pystr) :
  truthy line = true -> rejoins (_hard_split_line line B) line.
Proof.
  intros Ht. pose proof (hard_split_concat B line) as Hc.
  rewrite <- Hc at 2. apply rejoins_concat. intros E.
  rewrite E in Hc. subst line. discriminate.
Qed.

Lemma split_loop_rejoins (B : nat) (lines : list pystr) :
  forall chunks current P,
  Forall (fun l => truthy l = true) lines ->
  rejoins (flush chunks current) P ->
  rejoins (flush (fst (split_loop B chunks current lines))
                 (snd (split_loop B chunks current lines)))
          (P ++ flat_map (fun x => NL :: x) lines).
Proof.
  induction lines as [|line rest IH]; simpl; intros chunks current P Hl Hr.
  - rewrite app_nil_r. exact Hr.
  - inversion Hl as [|? ? Hline Hrest]; subst.
    replace (P ++ NL :: line ++ flat_map (fun x => NL :: x) rest)
      with ((P ++ [NL] ++ line) ++ flat_map (fun x => NL :: x) rest)
      by (rewrite <- !app_assoc; reflexivity).
    assert (Hsep : [NL] = [] \/ [NL] = [NL]) by (right; reflexivity).
    unfold flush in Hr.
    destruct current as [|c cs]; cbn [truthy split_loop] in *.
    + destruct (B <? byte_len line) eqn:E; apply IH; try exact Hrest; unfold flush; simpl.
      * refine (rejoins_app _ _ P line [NL] Hsep Hr _). apply hard_split_rejoins; exact Hline.
      * destruct line; [discriminate|]. exact (rejoins_app _ _ P _ [NL] Hsep Hr (rejoins_one _)).
    + destruct (B <? byte_len ((c :: cs) ++ NL :: line)) eqn:E1.
      * destruct (B <? byte_len line) eqn:E2; apply IH; try exact Hrest; unfold flush; simpl.
        -- refine (rejoins_app _ _ P line [NL] Hsep Hr _). apply hard_split_rejoins; exact Hline.
        -- destruct line; [discriminate|]. exact (rejoins_app _ _ P _ [NL] Hsep Hr (rejoins_one _)).
      * apply IH; [exact Hrest|]. unfold flush; simpl.
        pose proof (rejoins_extend_last chunks (c :: cs) (NL :: line) P Hr) as H.
        simpl in H. exact H.
Qed.

Lemma split_loop_first (B : nat) (line : pystr) (rest : list pystr) :
  truthy line = true ->
  exists c1 cur1, split_loop B [] [] (line :: rest) = split_loop B c1 cur1 rest /\
                  rejoins (flush c1 cur1) line.
Proof.
  intros Ht. simpl. destruct (B <? byte_len line) eqn:E.
  - eexists _, []. split; [reflexivity|]. unfold flush; simpl.
    apply hard_split_rejoins; exact Ht.
  - exists [], line. split; [reflexivity|]. unfold flush. rewrite Ht. constructor.
Qed.

(** When no line of the text is empty, [split_message] keeps every
    character: consecutive chunks are joined back either directly (two
    pieces of one hard-split line) or with one line break (a line boundary
    of the text), and this rebuilds the text exactly. *)
Theorem split_message_rejoins (text : pystr) (B : nat) :
  Forall (fun l => truthy l = true) (split_nl text) ->
  rejoins (split_message text B) text.
Proof.
  intros Hl. unfold split_message.
  destruct (byte_len text <=? B); [constructor|].
  pose proof (join_split_nl text) as Hj.
  destruct (split_nl text) as [|L1 rest] eqn:Es; [by destruct (split_nl_not_nil text)|].
  pose proof (Forall_inv Hl) as H1. pose proof (Forall_inv_tail Hl) as Hrest.
  destruct (split_loop_first B L1 rest H1) as (c1 & cur1 & Eq & Hr).
  rewrite Eq.
  pose proof (split_loop_rejoins B rest c1 cur1 L1 Hrest Hr) as H.
  simpl in Hj. rewrite Hj in H.
  destruct (split_loop B c1 cur1 rest) as [chunks current]. exact H.
Qed.

Lemma split_message_rejoins_witness :
  Forall (fun l => truthy l = true) (split_nl (lit "ab" ++ [NL] ++ lit "cd")) /\
  rejoins (split_message (lit "ab" ++ [NL] ++ lit "cd") 3) (lit "ab" ++ [NL] ++ lit "cd").
Proof.
  assert (H : Forall (fun l => truthy l = true) (split_nl (lit "ab" ++ [NL] ++ lit "cd")))
    by (vm_compute; repeat constructor).
  split; [exact H|]. exact (split_message_rejoins _ 3 H).
Defined.

End SplitterMore.

Module PollMore.
Import Poll PollSpec.

Lemma poll_room_fst (auth : option pystr -> bool) (bot_id : option pystr)
    (ps : PollState) (room_id : pystr) (messages : list Msg) :
  fst (poll_room auth bot_id ps room_id messages) =
  fst (poll_room_run auth bot_id ps room_id messages).
Proof.
  unfold poll_room. destruct (poll_room_run auth bot_id ps room_id messages) as [? [? ?]].
  reflexivity.
Qed.

Lemma poll_room_snd (auth : option pystr -> bool) (bot_id : option pystr)
    (ps : PollState) (room_id : pystr) (messages : list Msg) :
  snd (poll_room auth bot_id ps room_id messages) =
  fst (snd (poll_room_run auth bot_id ps room_id messages)).
Proof.
  unfold poll_room. destruct (poll_room_run auth bot_id ps room_id messages) as [? [? ?]].
  reflexivity.
Qed.

Lemma poll_room_run_cursor (auth : option pystr -> bool) (bot_id : option pystr)
    (ps : PollState) (room_id : pystr) (newest : Msg) (older : list Msg) :
  let ps' := fst (poll_room_run auth bot_id ps room_id (newest :: older)) in
  last_seen ps' !! room_id = Some (msg_id newest) /\
  room_id ∈ initialized_rooms ps' /\
  (forall r, r <> room_id ->
     last_seen ps' !! r = last_seen ps !! r /\
     (r ∈ initialized_rooms ps' <-> r ∈ initialized_rooms ps)).
Proof.
  cbv zeta. unfold poll_room_run.
  destruct (decide (room_id ∈ initialized_rooms ps)) as [Hi|Hi].
  - destruct (decide (last_seen ps !! room_id = Some (msg_id newest))) as [Hl|Hl]; simpl.
    + split; [exact Hl|]. split; [exact Hi|]. intros r _. tauto.
    + rewrite lookup_insert_eq. split; [reflexivity|]. split; [exact Hi|].
      intros r Hr. rewrite lookup_insert_ne by congruence. tauto.
  - simpl. rewrite lookup_insert_eq. split; [reflexivity|]. split; [set_solver|].
    intros r Hr. rewrite lookup_insert_ne by congruence. split; [reflexivity|]. set_solver.
Qed.

(** After a non-empty page, the room's cursor is the id of the page's
    newest message and the room is initialized, whichever branch ran (the
    cursor is written before the dispatch loop, so this holds also when
    the loop raises); the cursors and the initialized flags of the other
    rooms are unchanged. *)
Theorem poll_room_cursor_newest (auth : option pystr -> bool) (bot_id : option pystr)
    (ps : PollState) (room_id : pystr) (newest : Msg) (older : list Msg) :
  let ps' := fst (poll_room auth bot_id ps room_id (newest :: older)) in
  last_seen ps' !! room_id = Some (msg_id newest) /\
  room_id ∈ initialized_rooms ps' /\
  (forall r, r <> room_id ->
     last_seen ps' !! r = last_seen ps !! r /\
     (r ∈ initialized_rooms ps' <-> r ∈ initialized_rooms ps)).
Proof. cbv zeta. rewrite poll_room_fst. apply poll_room_run_cursor. Qed.

(** Polling a room again with the same page dispatches nothing and leaves
    the state as the first poll left it. *)
Theorem poll_room_repoll_idempotent (auth : option pystr -> bool) (bot_id : option pystr)
    (ps : PollState) (room_id : pystr) (messages : list Msg) :
  let ps1 := fst (poll_room auth bot_id ps room_id messages) in
  poll_room auth bot_id ps1 room_id messages = (ps1, []).
Proof.
  cbv zeta. destruct messages as [|newest older].
  { unfold poll_room, poll_room_run. reflexivity. }
  destruct (poll_room_run_cursor auth bot_id ps room_id newest older) as [Hl [Hi _]].
  cbv zeta in Hl, Hi. rewrite poll_room_fst.
  set (ps1 := fst (poll_room_run auth bot_id ps room_id (newest :: older))) in *.
  unfold poll_room at 1, poll_room_run at 1. rewrite decide_True by exact Hi.
  rewrite decide_True by exact Hl. reflexivity.
Qed.

Lemma collect_new_in (last : option pystr) (l : list Msg) (m : Msg) :
  In m (collect_new last l) -> In m l.
Proof.
  induction l as [|x l IH]; simpl; [done|].
  destruct (decide (Some (msg_id x) = last)); simpl; [done|]. intuition.
Qed.

Lemma dispatch_loop_in (auth : option pystr -> bool) (bot_id : option pystr)
    (room_id : pystr) (l : list Msg) (e : pystr * pystr) :
  In e (fst (dispatch_loop auth bot_id room_id l)) ->
  exists m, In m l /\ msg_step auth bot_id room_id m = MDispatch e.
Proof.
  induction l as [|x l IH]; simpl; [done|].
  destruct (msg_step auth bot_id room_id x) as [|ev|] eqn:E.
  - intros H. destruct (IH H) as (m & Hm & Em). eauto.
  - destruct (dispatch_loop auth bot_id room_id l) as [evs raised] eqn:El. cbn [fst] in *.
    intros [<-|H]; [eauto|]. destruct (IH H) as (m & Hm & Em). eauto.
  - intros [].
Qed.

Lemma msg_step_dispatch (auth : option pystr -> bool) (bot_id : option pystr)
    (room_id : pystr) (m : Msg) (e : pystr * pystr) :
  msg_step auth bot_id room_id m = MDispatch e ->
  exists t, msg_personId m <> bot_id /\
    auth (get_or_empty (msg_personEmail m)) = true /\
    msg_text m = JString t /\
    e = (room_id, strip t) /\
    truthy (strip t) = true.
Proof.
  unfold msg_step. destruct (decide (msg_personId m = bot_id)); [discriminate|].
  destruct (auth (get_or_empty (msg_personEmail m))) eqn:A; cbn [negb]; [|discriminate].
  destruct (msg_text m) as [| |t]; cbn [get_or_empty]; [|discriminate|].
  - cbn [strip lstrip rev truthy]. discriminate.
  - destruct (truthy (strip t)) eqn:T; [|discriminate].
    intros H. injection H as <-. exists t. auto.
Qed.

(** Every dispatch call a poll of a room makes is for that room and carries
    the stripped, non-blank text of a message of the page whose [text] is
    a string, that the bot did not send itself and whose sender email is
    authorized. *)
Theorem poll_room_events_filtered (auth : option pystr -> bool) (bot_id : option pystr)
    (ps : PollState) (room_id : pystr) (messages : list Msg) (e : pystr * pystr) :
  In e (snd (poll_room auth bot_id ps room_id messages)) ->
  exists m t, In m messages /\
    msg_personId m <> bot_id /\
    auth (get_or_empty (msg_personEmail m)) = true /\
    msg_text m = JString t /\
    e = (room_id, strip t) /\
    truthy (strip t) = true.
Proof.
  rewrite poll_room_snd. unfold poll_room_run.
  destruct messages as [|newest older]; simpl; [done|].
  destruct (decide (room_id ∈ initialized_rooms ps)); simpl; [|done].
  destruct (decide (last_seen ps !! room_id = Some (msg_id newest))); cbn [snd fst]; [done|].
  intros H. destruct (dispatch_loop_in _ _ _ _ _ H) as (m & Hm & Em).
  apply in_rev in Hm. apply (collect_new_in (last_seen ps !! room_id) (newest :: older) m) in Hm.
  destruct (msg_step_dispatch _ _ _ _ _ Em) as (t & H1 & H2 & H3 & H4 & H5).
  exists m, t. repeat split; assumption.
Qed.

Lemma poll_room_events_filtered_witness :
  let m := mkMsg (lit "m2") (Some (lit "u")) (JString (lit "a@b")) (JString (lit " hi ")) in
  let ps := mkPollState {[lit "r" := lit "m1"]} {[lit "r"]} in
  In (lit "r", lit "hi") (snd (poll_room (fun _ => true) None ps (lit "r") [m])) /\
  exists m' t, In m' [m] /\ msg_text m' = JString t /\ truthy (strip t) = true.
Proof.
  intros m ps.
  assert (H : In (lit "r", lit "hi") (snd (poll_room (fun _ => true) None ps (lit "r") [m])))
    by (vm_compute; left; reflexivity).
  split; [exact H|].
  destruct (poll_room_events_filtered _ _ _ _ _ _ H) as (m' & t & Hm & _ & _ & Ht & _ & Hs).
  exists m', t. auto.
Defined.

Lemma poll_room_run_cursors_match (auth : option pystr -> bool) (bot_id : option pystr)
    (ps : PollState) (room_id : pystr) (messages : list Msg) :
  cursors_match ps -> cursors_match (fst (poll_room_run auth bot_id ps room_id messages)).
Proof.
  intros H. destruct messages as [|newest older]; [exact H|].
  destruct (poll_room_run_cursor auth bot_id ps room_id newest older) as (Hl & Hi & Ho).
  cbv zeta in *. intros r. destruct (decide (r = room_id)) as [->|Hr].
  - rewrite Hl. split; [intros _; exact Hi|intros _; eexists; reflexivity].
  - destruct (Ho r Hr) as [E I]. rewrite E, I. apply H.
Qed.

(** Over any number of poll cycles, a room has a last-seen cursor exactly
    when it is marked initialized: [poll_loop] sets and keeps the two
    together, also in a cycle an exception cuts short. *)
Theorem poll_cycle_cursors_match (auth : option pystr -> bool) (bot_id : option pystr)
    (feeds : list (pystr * list Msg)) :
  forall ps, cursors_match ps -> cursors_match (fst (poll_cycle auth bot_id ps feeds)).
Proof.
  induction feeds as [|[room_id messages] rest IH]; simpl; intros ps H; [exact H|].
  pose proof (poll_room_run_cursors_match auth bot_id ps room_id messages H) as H1.
  destruct (poll_room_run auth bot_id ps room_id messages) as [ps1 [evs1 raised]].
  simpl in H1. destruct raised; [exact H1|].
  specialize (IH ps1 H1).
  destruct (poll_cycle auth bot_id ps1 rest) as [ps2 evs2]. exact IH.
Qed.

Lemma poll_cycle_cursors_match_witness :
  cursors_match (mkPollState ∅ ∅) /\
  cursors_match (fst (poll_cycle (fun _ => true) None (mkPollState ∅ ∅)
    [(lit "r", [mkMsg (lit "m1") None JMissing (JString (lit "hi"))])])).
Proof.
  assert (H : cursors_match (mkPollState ∅ ∅)).
  { intros r. simpl. rewrite lookup_empty. split; [intros [? ?]; discriminate|set_solver]. }
  split; [exact H|]. exact (poll_cycle_cursors_match _ _ _ _ H).
Defined.

(** A poll cycle over distinct rooms none of which is initialized yet (the
    first cycle of [poll_loop]) dispatches nothing: existing history is
    never replayed at start-up. *)
Theorem poll_cycle_fresh_rooms_silent (auth : option pystr -> bool) (bot_id : option pystr)
    (feeds : list (pystr * list Msg)) :
  forall ps, NoDup (map fst feeds) ->
  Forall (fun f => fst f ∉ initialized_rooms ps) feeds ->
  snd (poll_cycle auth bot_id ps feeds) = [].
Proof.
  induction feeds as [|[room_id messages] rest IH]; simpl; intros ps Hd Hf; [reflexivity|].
  inversion Hd as [|? ? Hnot Hd']; subst.
  inversion Hf as [|? ? Hr Hf']; subst. simpl in Hr.
  assert (Hps : forall r, r <> room_id -> r ∉ initialized_rooms ps ->
            r ∉ initialized_rooms (fst (poll_room_run auth bot_id ps room_id messages))).
  { intros r Hne Hn. destruct messages as [|newest older]; [exact Hn|].
    destruct (poll_room_run_cursor auth bot_id ps room_id newest older) as (_ & _ & Ho).
    cbv zeta in Ho. rewrite (proj2 (Ho r Hne)). exact Hn. }
  assert (E1 : snd (poll_room_run auth bot_id ps room_id messages) = ([], false)).
  { unfold poll_room_run. destruct messages; [reflexivity|].
    rewrite decide_False by exact Hr. reflexivity. }
  assert (Hrest : Forall (fun f => fst f ∉ initialized_rooms
                    (fst (poll_room_run auth bot_id ps room_id messages))) rest).
  { apply Forall_forall. intros f Hin. apply Hps.
    - intros E. apply Hnot. rewrite <- E. apply list_elem_of_In, in_map, list_elem_of_In, Hin.
    - exact (proj1 (Forall_forall _ _) Hf' f Hin). }
  specialize (IH _ Hd' Hrest).
  destruct (poll_room_run auth bot_id ps room_id messages) as [ps1 [evs1 raised]].
  simpl in E1, IH |- *. injection E1 as -> ->.
  destruct (poll_cycle auth bot_id ps1 rest) as [ps2 evs2]. simpl in IH |- *.
  exact IH.
Qed.

Lemma poll_cycle_fresh_rooms_silent_witness :
  let feeds := [(lit "r1", [mkMsg (lit "m1") None JMissing (JString (lit "hi"))]);
                (lit "r2", [mkMsg (lit "m2") None JMissing (JString (lit "yo"))])] in
  NoDup (map fst feeds) /\
  Forall (fun f => fst f ∉ initialized_rooms (mkPollState ∅ ∅)) feeds /\
  snd (poll_cycle (fun _ => true) None (mkPollState ∅ ∅) feeds) = [].
Proof.
  intros feeds.
  assert (H1 : NoDup (map fst feeds)).
  { simpl. constructor; [rewrite list_elem_of_In; simpl; intros [E|[]]; discriminate E|].
    constructor; [rewrite list_elem_of_In; simpl; tauto|constructor]. }
  assert (H2 : Forall (fun f => fst f ∉ initialized_rooms (mkPollState ∅ ∅)) feeds).
  { repeat constructor; simpl; set_solver. }
  split; [exact H1|]. split; [exact H2|].
  exact (poll_cycle_fresh_rooms_silent _ _ feeds _ H1 H2).
Defined.




End PollMore.

Module WebexMore.
Import Webex.

Lemma request_loop_step (reply : nat -> Reply) (n a : nat) :
  request_loop reply (S n) a =
  if retry_at a (reply a) then
    prepend [Requested a; Slept (wait_of a (reply a))] (request_loop reply n (S a))
  else ([Requested a], final (reply a)).
Proof.
  cbn [request_loop]. destruct (reply a) as [|st ra b]; cbn [retry_at wait_of final].
  - destruct (a <? MAX_RETRIES); reflexivity.
  - destruct (st =? 429)%Z eqn:E1; [reflexivity|].
    destruct (st =? 401)%Z eqn:E2.
    + apply Z.eqb_eq in E2. subst st. reflexivity.
    + destruct ((500 <=? st)%Z && (a <? MAX_RETRIES)); [reflexivity|].
      destruct ((200 <=? st)%Z && (st <? 300)%Z); reflexivity.
Qed.

Lemma wait_of_le_60 (a : nat) (r : Reply) : (wait_of a r <= 60)%Z.
Proof.
  assert (Hb : (backoff a <= 60)%Z)
    by (unfold backoff; pose proof (Z.le_min_r (2 ^ Z.of_nat a) 30); lia).
  destruct r as [|st ra b]; cbn [wait_of]; [exact Hb|].
  destruct (st =? 429)%Z; [|exact Hb].
  unfold retry_after_seconds. destruct (parse_int _) as [z|]; [|lia].
  pose proof (Z.le_min_r z 60). lia.
Qed.

Lemma request_loop_shape (reply : nat -> Reply) (n : nat) :
  forall a, exists k, k <= n /\ (1 <= n -> 1 <= k) /\
    attempts (fst (request_loop reply n a)) = seq a k /\
    Forall (fun s => (s <= 60)%Z) (sleeps (fst (request_loop reply n a))) /\
    length (sleeps (fst (request_loop reply n a))) <= k.
Proof.
  induction n as [|n IH]; intros a.
  - exists 0. cbn. repeat split; try lia. constructor.
  - rewrite request_loop_step. destruct (retry_at a (reply a)).
    + destruct (IH (S a)) as (k & Hk & _ & Ha & Hs & Hl).
      exists (S k). cbn [prepend fst app attempts sleeps]. rewrite Ha.
      split; [lia|]. split; [lia|]. split; [reflexivity|]. split.
      * constructor; [apply wait_of_le_60|exact Hs].
      * cbn [length]. lia.
    + exists 1. cbn. repeat split; try lia. constructor.
Qed.

(** A started client makes one to three requests, numbered 1, 2, 3 in
    order, and sleeps at most once per request made, each sleep at most
    60 seconds long, whatever the server and the network answer. *)
Theorem request_bounded (reply : nat -> Reply) :
  exists k, 1 <= k <= MAX_RETRIES /\
    attempts (fst (_request reply true)) = seq 1 k /\
    Forall (fun s => (s <= 60)%Z) (sleeps (fst (_request reply true))) /\
    length (sleeps (fst (_request reply true))) <= k.
Proof.
  unfold _request. destruct (request_loop_shape reply MAX_RETRIES 1) as (k & H1 & H2 & H3).
  exists k. unfold MAX_RETRIES in *. split; [lia|exact H3].
Qed.

Lemma request_loop_returned (reply : nat -> Reply) (n : nat) :
  forall a body, snd (request_loop reply n a) = Returned body ->
  exists j st ra, j < n /\ attempts (fst (request_loop reply n a)) = seq a (S j) /\
    reply (a + j) = Response st ra (Some body) /\ (200 <= st < 300)%Z.
Proof.
  induction n as [|n IH]; intros a body; [discriminate|].
  rewrite request_loop_step. destruct (retry_at a (reply a)).
  - cbn [prepend snd fst]. intros H. destruct (IH (S a) body H) as (j & st & ra & Hj & Ha & Hr & Hs).
    exists (S j), st, ra. cbn [app attempts]. rewrite Ha.
    split; [lia|]. split; [reflexivity|]. split; [|exact Hs].
    rewrite <- Hr. f_equal. lia.
  - cbn [snd fst attempts]. destruct (reply a) as [|st ra b] eqn:Er; cbn [final]; [discriminate|].
    destruct (st =? 401)%Z; [discriminate|].
    destruct ((200 <=? st)%Z && (st <? 300)%Z) eqn:E; [|discriminate].
    destruct b as [b|]; [|discriminate].
    intros H. injection H as <-. apply andb_prop in E as [E1 E2].
    apply Z.leb_le in E1. apply Z.ltb_lt in E2.
    exists 0, st, ra. rewrite Nat.add_0_r. repeat split; try lia. exact Er.
Qed.

(** When [_request] returns a value, it is the decoded JSON body of a 2xx
    response to the last of the requests it made. *)
Theorem request_returned_2xx (reply : nat -> Reply) (started : bool) (body : pystr) :
  snd (_request reply started) = Returned body ->
  exists k st ra, 1 <= k <= MAX_RETRIES /\
    attempts (fst (_request reply started)) = seq 1 k /\
    reply k = Response st ra (Some body) /\ (200 <= st < 300)%Z.
Proof.
  unfold _request. destruct started; [|discriminate]. intros H.
  destruct (request_loop_returned reply MAX_RETRIES 1 body H) as (j & st & ra & Hj & Ha & Hr & Hs).
  exists (S j), st, ra. unfold MAX_RETRIES in *. split; [lia|]. split; [exact Ha|]. split; [exact Hr|exact Hs].
Qed.

Lemma request_returned_2xx_witness :
  let reply := fun k => if k =? 1 then NetError else Response 200 None (Some (lit "{}")) in
  snd (_request reply true) = Returned (lit "{}") /\
  exists k st ra, 1 <= k <= MAX_RETRIES /\
    attempts (fst (_request reply true)) = seq 1 k /\
    reply k = Response st ra (Some (lit "{}")) /\ (200 <= st < 300)%Z.
Proof.
  intros reply. assert (H : snd (_request reply true) = Returned (lit "{}")) by reflexivity.
  split; [exact H|]. exact (request_returned_2xx reply true _ H).
Defined.

Lemma request_loop_http_error (reply : nat -> Reply) (n : nat) :
  forall a st, snd (request_loop reply n a) = RaisedHTTPStatusError st ->
  exists j ra b, j < n /\ attempts (fst (request_loop reply n a)) = seq a (S j) /\
    reply (a + j) = Response st ra b /\ ~ (200 <= st < 300)%Z /\
    st <> 429%Z /\ st <> 401%Z /\ ((st < 500)%Z \/ MAX_RETRIES <= a + j).
Proof.
  induction n as [|n IH]; intros a st; [discriminate|].
  rewrite request_loop_step. destruct (retry_at a (reply a)) eqn:R.
  - cbn [prepend snd fst]. intros H. destruct (IH (S a) st H) as (j & ra & b & Hj & Ha & Hr & Hs).
    exists (S j), ra, b. cbn [app attempts]. rewrite Ha.
    split; [lia|]. split; [reflexivity|]. split.
    + rewrite <- Hr. f_equal. lia.
    + replace (a + S j) with (S a + j) by lia. exact Hs.
  - cbn [snd fst attempts]. destruct (reply a) as [|st' ra b] eqn:Er; cbn [final]; [discriminate|].
    destruct (st' =? 401)%Z eqn:E4; [discriminate|].
    destruct ((200 <=? st')%Z && (st' <? 300)%Z) eqn:E; [destruct b; discriminate|].
    intros H. injection H as <-. exists 0, ra, b. rewrite Nat.add_0_r.
    cbn [retry_at] in R. apply orb_false_iff in R as [R1 R2].
    apply Z.eqb_neq in R1. apply Z.eqb_neq in E4.
    split; [lia|]. split; [reflexivity|]. split; [exact Er|].
    split; [intros [H1 H2]; apply Z.leb_le in H1; apply Z.ltb_lt in H2; rewrite H1, H2 in E; discriminate|].
    split; [exact R1|]. split; [exact E4|].
    apply andb_false_iff in R2 as [R2|R2]; [left; apply Z.leb_gt in R2; lia|].
    right. apply Nat.ltb_ge in R2. exact R2.
Qed.

Lemma request_loop_exhausted (reply : nat -> Reply) (n : nat) :
  forall a, snd (request_loop reply n a) = RaisedRetriesExhausted <->
  (forall j, j < n -> retry_at (a + j) (reply (a + j)) = true).
Proof.
  induction n as [|n IH]; intros a.
  - cbn. split; [intros _ j Hj; lia|reflexivity].
  - rewrite request_loop_step. destruct (retry_at a (reply a)) eqn:R.
    + cbn [prepend snd]. rewrite IH. split.
      * intros H j Hj. destruct j as [|j]; [rewrite Nat.add_0_r; exact R|].
        replace (a + S j) with (S a + j) by lia. apply H. lia.
      * intros H j Hj. replace (S a + j) with (a + S j) by lia. apply H. lia.
    + cbn [snd]. split.
      * intros E. exfalso. destruct (reply a) as [|st ra b]; cbn [final] in E; [discriminate|].
        destruct (st =? 401)%Z; [discriminate|].
        destruct ((200 <=? st)%Z && (st <? 300)%Z); [destruct b|]; discriminate.
      * intros H. specialize (H 0 ltac:(lia)). rewrite Nat.add_0_r, R in H. discriminate.
Qed.

Lemma request_loop_exhausted_attempts (reply : nat -> Reply) (n : nat) :
  forall a, (forall j, j < n -> retry_at (a + j) (reply (a + j)) = true) ->
  attempts (fst (request_loop reply n a)) = seq a n.
Proof.
  induction n as [|n IH]; intros a H; [reflexivity|].
  rewrite request_loop_step. pose proof (H 0 ltac:(lia)) as H0. rewrite Nat.add_0_r in H0.
  rewrite H0. cbn [prepend fst app attempts seq]. f_equal. apply IH.
  intros j Hj. replace (S a + j) with (a + S j) by lia. apply H. lia.
Qed.

Lemma retry_at_last (r : Reply) :
  retry_at MAX_RETRIES r = true <-> exists ra b, r = Response 429 ra b.
Proof.
  destruct r as [|st ra b]; cbn; [split; [discriminate|intros (? & ? & ?); discriminate]|].
  rewrite andb_false_r, orb_false_r. split.
  - intros E. apply Z.eqb_eq in E. subst. eauto.
  - intros (ra' & b' & E). injection E as ->. reflexivity.
Qed.

(** [_request] raises an [httpx.HTTPStatusError] in two ways. From
    [raise_for_status], the status is the last response's status. It is
    never 401 or 429. A status below 500 is raised at once, without a
    retry, and a 5xx status only at the third attempt. As "Retries
    exhausted", it comes after three requests, the third of which got a
    429. *)
Theorem request_http_error_status (reply : nat -> Reply) (started : bool) :
  (forall st, snd (_request reply started) = RaisedHTTPStatusError st ->
   exists k ra b, 1 <= k <= MAX_RETRIES /\
     attempts (fst (_request reply started)) = seq 1 k /\
     reply k = Response st ra b /\ ~ (200 <= st < 300)%Z /\ st <> 429%Z /\ st <> 401%Z /\
     ((st < 500)%Z \/ k = MAX_RETRIES)) /\
  (snd (_request reply started) = RaisedRetriesExhausted ->
   attempts (fst (_request reply started)) = seq 1 MAX_RETRIES /\
   exists ra b, reply MAX_RETRIES = Response 429 ra b).
Proof.
  unfold _request. destruct started; [|split; [discriminate|discriminate]]. split.
  - intros st H.
    destruct (request_loop_http_error reply MAX_RETRIES 1 st H)
      as (j & ra & b & Hj & Ha & Hr & H2 & H4 & H1 & H5).
    exists (S j), ra, b. unfold MAX_RETRIES in *.
    split; [lia|]. split; [exact Ha|]. split; [exact Hr|]. split; [exact H2|].
    split; [exact H4|]. split; [exact H1|]. lia.
  - intros H. pose proof (proj1 (request_loop_exhausted reply MAX_RETRIES 1) H) as Hj. split.
    + apply request_loop_exhausted_attempts. exact Hj.
    + apply retry_at_last. exact (Hj 2 ltac:(unfold MAX_RETRIES; lia)).
Qed.

Lemma request_http_error_status_witness :
  let reply := fun k => if k =? 1 then Response 503 None None else Response 404 None None in
  let reply' := fun k => Response 429 None None in
  (snd (_request reply true) = RaisedHTTPStatusError 404 /\
   exists k ra b, 1 <= k <= MAX_RETRIES /\
     attempts (fst (_request reply true)) = seq 1 k /\
     reply k = Response 404 ra b /\ ~ (200 <= 404 < 300)%Z /\ 404%Z <> 429%Z /\ 404%Z <> 401%Z /\
     ((404 < 500)%Z \/ k = MAX_RETRIES)) /\
  (snd (_request reply' true) = RaisedRetriesExhausted /\
   attempts (fst (_request reply' true)) = seq 1 MAX_RETRIES /\
   exists ra b, reply' MAX_RETRIES = Response 429 ra b).
Proof.
  intros reply reply'.
  assert (H : snd (_request reply true) = RaisedHTTPStatusError 404) by reflexivity.
  assert (H' : snd (_request reply' true) = RaisedRetriesExhausted) by reflexivity.
  split.
  - split; [exact H|]. exact (proj1 (request_http_error_status reply true) _ H).
  - split; [exact H'|]. exact (proj2 (request_http_error_status reply' true) H').
Defined.

(** [_request] gives up with "Retries exhausted" exactly when the first
    two replies are retryable (a network error, a 429 or a 5xx) and the
    third one is a 429: a network error or a 5xx at the third attempt
    raises its own error instead. *)
Theorem request_exhausted_iff (reply : nat -> Reply) :
  snd (_request reply true) = RaisedRetriesExhausted <->
  retryable (reply 1) = true /\ retryable (reply 2) = true /\
  exists ra b, reply 3 = Response 429 ra b.
Proof.
  unfold _request. rewrite request_loop_exhausted.
  assert (Hs : forall a r, a < MAX_RETRIES -> retry_at a r = retryable r).
  { intros a r Ha. apply Nat.ltb_lt in Ha. destruct r; cbn [retry_at retryable];
      rewrite Ha; [reflexivity|]. rewrite andb_true_r. reflexivity. }
  assert (H3 : forall r, retry_at 3 r = true <-> exists ra b, r = Response 429 ra b).
  { intros [|st ra b]; cbn; [split; [discriminate|intros (? & ? & ?); discriminate]|].
    rewrite andb_false_r, orb_false_r. split.
    - intros E. apply Z.eqb_eq in E. subst. eauto.
    - intros (ra' & b' & E). injection E as ->. reflexivity. }
  unfold MAX_RETRIES at 1. split.
  - intros H. rewrite <- (Hs 1), <- (Hs 2) by (unfold MAX_RETRIES; lia).
    split; [exact (H 0 ltac:(lia))|]. split; [exact (H 1 ltac:(lia))|].
    apply H3. exact (H 2 ltac:(lia)).
  - intros (H1 & H2 & H3') j Hj.
    destruct j as [|[|[|j]]]; [| | |lia]; cbn [Nat.add].
    + rewrite Hs by (unfold MAX_RETRIES; lia). exact H1.
    + rewrite Hs by (unfold MAX_RETRIES; lia). exact H2.
    + apply H3. exact H3'.
Qed.

Lemma uint_digits_value (acc : Z) (d : Decimal.uint) :
  digits_value acc true (uint_digits d) = Some (horner acc d).
Proof. revert acc. induction d; intros acc; cbn; try reflexivity; apply IHd. Qed.

Lemma uint_digits_value_first (d : Decimal.uint) :
  d <> Decimal.Nil -> digits_value 0 false (uint_digits d) = Some (horner 0 d).
Proof.
  intros H. destruct d; [contradiction| ..]; cbn; apply uint_digits_value.
Qed.

Lemma of_uint_acc_horner (d : Decimal.uint) :
  forall acc, Zpos (Pos.of_uint_acc d acc) = horner (Zpos acc) d.
Proof.
  induction d; intros acc; cbn [Pos.of_uint_acc horner]; try reflexivity;
    rewrite IHd; f_equal; lia.
Qed.

Lemma of_uint_horner (d : Decimal.uint) : Z.of_N (Pos.of_uint d) = horner 0 d.
Proof.
  induction d; cbn [Pos.of_uint]; try exact IHd; try reflexivity; cbn [Z.of_N];
    rewrite (of_uint_acc_horner d); reflexivity.
Qed.

Lemma uint_digits_not_int_space (d : Decimal.uint) :
  Forall (fun c => int_space c = false) (uint_digits d).
Proof. induction d; cbn [uint_digits]; repeat constructor; assumption. Qed.

Lemma skip_int_space_none (s : pystr) :
  match s with c :: _ => int_space c = false | [] => True end -> skip_int_space s = s.
Proof. destruct s as [|c r]; [reflexivity|]. cbn. intros ->. reflexivity. Qed.

Lemma int_strip_no_space (s : pystr) :
  Forall (fun c => int_space c = false) s -> int_strip s = s.
Proof.
  intros H. unfold int_strip.
  rewrite (skip_int_space_none s) by (destruct s; [exact I|inversion H; assumption]).
  rewrite (skip_int_space_none (rev s)).
  - apply rev_involutive.
  - destruct (rev s) as [|c r] eqn:E; [exact I|].
    assert (Hin : In c (rev s)) by (rewrite E; left; reflexivity).
    apply in_rev in Hin. exact (proj1 (List.Forall_forall _ _) H c Hin).
Qed.

Lemma digit_count_uint_digits (d : Decimal.uint) :
  digit_count (uint_digits d) = Decimal.nb_digits d.
Proof. unfold digit_count. induction d; simpl; try rewrite IHd; reflexivity. Qed.

Lemma to_uint_not_nil (p : positive) : N.to_uint (Npos p) <> Decimal.Nil.
Proof.
  intros E. pose proof (DecimalN.Unsigned.of_to (Npos p)) as H.
  rewrite E in H. discriminate.
Qed.

Lemma parse_int_digits (d : Decimal.uint) :
  d <> Decimal.Nil ->
  parse_int (uint_digits d) =
  if INT_MAX_STR_DIGITS <? Decimal.nb_digits d then None else Some (horner 0 d).
Proof.
  intros H. unfold parse_int. rewrite int_strip_no_space by apply uint_digits_not_int_space.
  rewrite <- digit_count_uint_digits, <- (uint_digits_value_first d H).
  destruct d; [contradiction| ..]; reflexivity.
Qed.

Lemma parse_int_neg_digits (d : Decimal.uint) :
  d <> Decimal.Nil ->
  parse_int (45%N :: uint_digits d) =
  if INT_MAX_STR_DIGITS <? Decimal.nb_digits d then None else Some (- horner 0 d)%Z.
Proof.
  intros H. unfold parse_int.
  rewrite int_strip_no_space by (constructor; [reflexivity|apply uint_digits_not_int_space]).
  cbn [N.eqb Pos.eqb]. rewrite <- digit_count_uint_digits, (uint_digits_value_first d H).
  reflexivity.
Qed.

Lemma horner_to_uint (p : positive) : horner 0 (N.to_uint (Npos p)) = Zpos p.
Proof.
  rewrite <- of_uint_horner. pose proof (DecimalN.Unsigned.of_to (Npos p)) as Hp.
  unfold N.of_uint in Hp. rewrite Hp. reflexivity.
Qed.

Lemma horner_acc (d : Decimal.uint) :
  forall acc, horner acc d = (acc * 10 ^ Z.of_nat (Decimal.nb_digits d) + horner 0 d)%Z.
Proof.
  induction d; intros acc; [simpl; lia| ..]; cbn [horner Decimal.nb_digits];
    rewrite (IHd (10 * acc + _)%Z), (IHd (10 * 0 + _)%Z);
    rewrite Nat2Z.inj_succ, Z.pow_succ_r by lia; ring.
Qed.

Lemma horner_range (d : Decimal.uint) :
  (0 <= horner 0 d < 10 ^ Z.of_nat (Decimal.nb_digits d))%Z.
Proof.
  induction d; [simpl; lia| ..]; cbn [horner Decimal.nb_digits]; rewrite horner_acc;
    rewrite Nat2Z.inj_succ, Z.pow_succ_r by lia; lia.
Qed.

Lemma horner_lead (d : Decimal.uint) :
  Decimal.nzhead d = d -> d <> Decimal.Nil ->
  (10 ^ Z.of_nat (pred (Decimal.nb_digits d)) <= horner 0 d)%Z.
Proof.
  intros Hz Hn. destruct d as [|r|r|r|r|r|r|r|r|r|r]; [contradiction| |..].
  2-10: cbn [horner Decimal.nb_digits pred]; rewrite horner_acc;
    pose proof (horner_range r); lia.
  exfalso. pose proof (DecimalFacts.nb_digits_nzhead r) as H.
  cbn [Decimal.nzhead] in Hz. rewrite Hz in H. cbn [Decimal.nb_digits] in H. lia.
Qed.

Lemma to_uint_nzhead (p : positive) :
  Decimal.nzhead (N.to_uint (Npos p)) = N.to_uint (Npos p).
Proof.
  pose proof (horner_to_uint p) as Hv.
  pose proof (DecimalN.Unsigned.to_of (N.to_uint (Npos p))) as H.
  rewrite DecimalN.Unsigned.of_to in H.
  remember (N.to_uint (Npos p)) as d eqn:Ed. clear Ed.
  unfold Decimal.unorm in H. destruct (Decimal.nzhead d) eqn:E.
  2-11: symmetry; exact H.
  rewrite H in Hv. cbn in Hv. discriminate.
Qed.

Lemma nb_digits_bound (p : positive) (k : nat) :
  (Decimal.nb_digits (N.to_uint (Npos p)) <= k)%nat <-> (Zpos p < 10 ^ Z.of_nat k)%Z.
Proof.
  pose proof (horner_range (N.to_uint (Npos p))) as Hr.
  pose proof (horner_lead _ (to_uint_nzhead p) (to_uint_not_nil p)) as Hl.
  rewrite horner_to_uint in Hr, Hl.
  assert (Hn : Decimal.nb_digits (N.to_uint (Npos p)) <> 0%nat)
    by (pose proof (to_uint_not_nil p); destruct (N.to_uint (Npos p)); cbn; congruence).
  split; intros H.
  - enough (10 ^ Z.of_nat (Decimal.nb_digits (N.to_uint (Npos p))) <= 10 ^ Z.of_nat k)%Z by lia.
    apply Z.pow_le_mono_r; lia.
  - destruct (Nat.le_gt_cases (Decimal.nb_digits (N.to_uint (Npos p))) k) as [Hk|Hk]; [exact Hk|].
    exfalso.
    enough (10 ^ Z.of_nat k <= 10 ^ Z.of_nat (pred (Decimal.nb_digits (N.to_uint (Npos p)))))%Z
      by lia.
    apply Z.pow_le_mono_r; lia.
Qed.

Lemma parse_int_str_of_Z (z : Z) :
  parse_int (str_of_Z z) = if (Z.abs z <? 10 ^ 4300)%Z then Some z else None.
Proof.
  destruct z as [|p|p]; [vm_compute; reflexivity| |]; unfold str_of_Z.
  - rewrite parse_int_digits by apply to_uint_not_nil. rewrite horner_to_uint.
    pose proof (nb_digits_bound p INT_MAX_STR_DIGITS) as H. unfold INT_MAX_STR_DIGITS in *.
    change (Z.abs (Zpos p)) with (Zpos p). change (Z.of_nat 4300) with 4300%Z in H.
    set (X := (10 ^ 4300)%Z) in *. clearbody X.
    destruct (Nat.ltb_spec 4300 (Decimal.nb_digits (N.to_uint (Npos p)))) as [L|L];
      destruct (Z.ltb_spec (Zpos p) X) as [M|M]; try reflexivity; exfalso.
    + apply H in M. lia.
    + apply H in L. lia.
  - rewrite parse_int_neg_digits by apply to_uint_not_nil. rewrite horner_to_uint.
    pose proof (nb_digits_bound p INT_MAX_STR_DIGITS) as H. unfold INT_MAX_STR_DIGITS in *.
    change (Z.abs (Zneg p)) with (Zpos p). change (Z.of_nat 4300) with 4300%Z in H.
    set (X := (10 ^ 4300)%Z) in *. clearbody X.
    destruct (Nat.ltb_spec 4300 (Decimal.nb_digits (N.to_uint (Npos p)))) as [L|L];
      destruct (Z.ltb_spec (Zpos p) X) as [M|M]; try reflexivity; exfalso.
    + apply H in M. lia.
    + apply H in L. lia.
Qed.

Lemma retry_after_str_of_Z (n : Z) :
  retry_after_seconds (Some (str_of_Z n)) =
  if (Z.abs n <? 10 ^ 4300)%Z then Z.min n 60 else 5%Z.
Proof.
  unfold retry_after_seconds. cbn [get_default]. rewrite parse_int_str_of_Z.
  destruct (Z.abs n <? 10 ^ 4300)%Z; reflexivity.
Qed.

(** A [Retry-After] header holding the decimal form of an integer [n]
    gives a wait of [min(n, 60)] seconds when [n] has at most 4300 digits
    (a negative [n] gives a negative wait, which [asyncio.sleep] returns
    from at once). Beyond that, [int()] refuses the string under the
    default [sys.get_int_max_str_digits()] and the wait is 5 seconds, as
    for a missing header. *)
Theorem retry_after_seconds_decimal (n : Z) :
  retry_after_seconds (Some (str_of_Z n)) =
    (if (Z.abs n <? 10 ^ 4300)%Z then Z.min n 60 else 5%Z) /\
  retry_after_seconds None = 5%Z.
Proof.
  split; [apply retry_after_str_of_Z|reflexivity].
Qed.

(** A 429 carrying [Retry-After: n], with [n] of at most 4300 digits,
    followed by a 2xx response with a JSON body makes two requests with one
    sleep of [min(n, 60)] seconds between them, and returns the second
    response's decoded body. *)
Theorem request_rate_limited_then_ok (reply : nat -> Reply) (n st : Z)
    (b1 : option pystr) (body : pystr) (ra2 : option pystr) :
  (Z.abs n < 10 ^ 4300)%Z ->
  reply 1 = Response 429 (Some (str_of_Z n)) b1 ->
  reply 2 = Response st ra2 (Some body) -> (200 <= st < 300)%Z ->
  _request reply true = ([Requested 1; Slept (Z.min n 60); Requested 2], Returned body).
Proof.
  intros Hn H1 H2 Hs. unfold _request, MAX_RETRIES. rewrite !request_loop_step. rewrite H1, H2.
  cbn [retry_at wait_of final]. rewrite retry_after_str_of_Z.
  apply Z.ltb_lt in Hn. rewrite Hn. clear Hn.
  assert (E : (st =? 429)%Z = false) by (apply Z.eqb_neq; lia).
  assert (E' : (st =? 401)%Z = false) by (apply Z.eqb_neq; lia).
  assert (E5 : (500 <=? st)%Z = false) by (apply Z.leb_gt; lia).
  assert (E2 : ((200 <=? st)%Z && (st <? 300)%Z) = true)
    by (apply andb_true_intro; split; [apply Z.leb_le|apply Z.ltb_lt]; lia).
  rewrite E, E', E5, E2. reflexivity.
Qed.

Lemma request_rate_limited_then_ok_witness :
  let reply := fun k => if k =? 1 then Response 429 (Some (str_of_Z 120)) None
                        else Response 200 None (Some (lit "ok")) in
  _request reply true = ([Requested 1; Slept 60; Requested 2], Returned (lit "ok")).
Proof.
  intros reply.
  exact (request_rate_limited_then_ok reply 120 200 None (lit "ok") None
           ltac:(apply Z.ltb_lt; vm_compute; reflexivity) eq_refl eq_refl ltac:(lia)).
Defined.

Lemma request_loop_escaping (reply : nat -> Reply) (n : nat) :
  forall a, ((exists m, snd (request_loop reply n a) = RaisedSystemExit m) \/
             snd (request_loop reply n a) = RaisedJSONError) <->
  (exists k st ra b, In k (attempts (fst (request_loop reply n a))) /\
     reply k = Response st ra b /\ (st = 401%Z \/ ((200 <= st < 300)%Z /\ b = None))).
Proof.
  induction n as [|n IH]; intros a.
  - cbn. split; [intros [(m & E)|E]; discriminate|intros (k & st & ra & b & [] & _)].
  - rewrite request_loop_step. destruct (retry_at a (reply a)) eqn:R.
    + cbn [prepend snd fst app attempts]. rewrite IH. split.
      * intros (k & st & ra & b & Hk & Hr & C). exists k, st, ra, b. split; [right; exact Hk|auto].
      * intros (k & st & ra & b & [<-|Hk] & Hr & C).
        -- exfalso. rewrite Hr in R. cbn [retry_at] in R.
           apply orb_true_iff in R as [R|R]; [apply Z.eqb_eq in R; lia|].
           apply andb_prop in R as [R _]. apply Z.leb_le in R. lia.
        -- exists k, st, ra, b. auto.
    + cbn [snd fst attempts]. destruct (reply a) as [|st ra b] eqn:Er; cbn [final].
      * split; [intros [(m & E)|E]; discriminate|].
        intros (k & st & ra & b & [<-|[]] & Hr & _). congruence.
      * split.
        -- intros H. exists a, st, ra, b. split; [left; reflexivity|]. split; [exact Er|].
           revert H. destruct (st =? 401)%Z eqn:E4; [intros _; left; apply Z.eqb_eq; exact E4|].
           destruct ((200 <=? st)%Z && (st <? 300)%Z) eqn:E2; [|intros [(m & E)|E]; discriminate].
           destruct b; [intros [(m & E)|E]; discriminate|intros _].
           apply andb_prop in E2 as [E2 E3]. apply Z.leb_le in E2. apply Z.ltb_lt in E3.
           right. split; [lia|reflexivity].
        -- intros (k & st' & ra' & b' & [<-|[]] & Hr & C). rewrite Er in Hr.
           injection Hr as <- <- <-. destruct C as [->|[Hs ->]]; [left; eexists; reflexivity|].
           right. assert (E4 : (st =? 401)%Z = false) by (apply Z.eqb_neq; lia).
           assert (E2 : ((200 <=? st)%Z && (st <? 300)%Z) = true)
             by (apply andb_true_intro; split; [apply Z.leb_le|apply Z.ltb_lt]; lia).
           rewrite E4, E2. reflexivity.
Qed.

Lemma request_loop_no_runtime_error (reply : nat -> Reply) (n : nat) :
  forall a m, snd (request_loop reply n a) <> RaisedRuntimeError m.
Proof.
  induction n as [|n IH]; intros a m; [discriminate|].
  rewrite request_loop_step. destruct (retry_at a (reply a)); [apply IH|].
  cbn [snd]. destruct (reply a) as [|st ra b]; cbn [final]; [discriminate|].
  destruct (st =? 401)%Z; [discriminate|].
  destruct ((200 <=? st)%Z && (st <? 300)%Z); [destruct b|]; discriminate.
Qed.

Lemma request_loop_exit_message (reply : nat -> Reply) (n : nat) :
  forall a m, snd (request_loop reply n a) = RaisedSystemExit m ->
  m = lit "Fatal: Webex API returned 401 Unauthorized.".
Proof.
  induction n as [|n IH]; intros a m; [discriminate|].
  rewrite request_loop_step. destruct (retry_at a (reply a)); [apply IH|].
  cbn [snd]. destruct (reply a) as [|st ra b]; cbn [final]; [discriminate|].
  destruct (st =? 401)%Z; [intros E; injection E as <-; reflexivity|].
  destruct ((200 <=? st)%Z && (st <? 300)%Z); [destruct b|]; discriminate.
Qed.

(** With a started client, [edit_message] lets an exception through in
    two cases only: a request got a 401, and the [SystemExit] of
    [_request] propagates; or a request got a 2xx response whose body is
    not JSON, and the [ValueError] of [response.json()] propagates. Every
    other failure (network errors, HTTP error statuses, exhausted retries)
    is turned into a [None] result. *)
Theorem edit_message_only_401_escapes (reply : nat -> Reply) :
  (forall o, snd (edit_message reply true) = inr o ->
     o = RaisedSystemExit (lit "Fatal: Webex API returned 401 Unauthorized.") \/
     o = RaisedJSONError) /\
  ((exists o, snd (edit_message reply true) = inr o) <->
   exists k st ra b, In k (attempts (fst (edit_message reply true))) /\
     reply k = Response st ra b /\ (st = 401%Z \/ ((200 <= st < 300)%Z /\ b = None))).
Proof.
  pose proof (request_loop_escaping reply MAX_RETRIES 1) as H.
  pose proof (request_loop_exit_message reply MAX_RETRIES 1) as Hm.
  pose proof (request_loop_no_runtime_error reply MAX_RETRIES 1) as Hr.
  unfold edit_message, _request. cbn [negb].
  destruct (request_loop reply MAX_RETRIES 1) as [evs o]. cbn [fst snd] in *.
  split.
  - intros o' E. destruct o; try discriminate; injection E as <-.
    + left. f_equal. apply Hm. reflexivity.
    + exfalso. exact (Hr _ eq_refl).
    + right. reflexivity.
  - rewrite <- H. split.
    + intros (o' & E). destruct o; try discriminate; eauto.
      exfalso. exact (Hr _ eq_refl).
    + intros [(m & E)|E]; subst o; eexists; reflexivity.
Qed.

End WebexMore.


Module BotMore.
Import Turn Bot BotSpec.

Lemma get_state_spec (room : pystr) (R : gmap pystr BotState) T k :
  get_state room (mkWorld R T k) =
  (mkWorld (<[room := state_of R room]> R) T k, Ok (state_of R room)).
Proof.
  unfold get_state, state_of. cbn [rooms trace tick].
  destruct (R !! room) eqn:E; [rewrite insert_id by exact E|]; reflexivity.
Qed.

Lemma modify_state_spec (room : pystr) (f : BotState -> BotState) (R : gmap pystr BotState)
    (s : BotState) T k :
  modify_state room f (mkWorld (<[room := s]> R) T k) =
  (mkWorld (<[room := f s]> R) T k, Ok tt).
Proof.
  unfold modify_state. cbn [rooms trace tick]. rewrite lookup_insert_eq.
  rewrite insert_insert_eq. reflexivity.
Qed.

Lemma send_spec (o : Oracle) (room text : pystr) R T k :
  send o room text (mkWorld R T k) =
  (mkWorld R (T ++ [(ApiSend room text, R)]) (S k),
   match ans_send o k with Ok _ => Ok tt | Raise e => Raise e end).
Proof.
  unfold send, bind, api_send_message, await_call. cbn. destruct (ans_send o k); reflexivity.
Qed.

Lemma state_of_insert_eq (R : gmap pystr BotState) (room : pystr) (s : BotState) :
  state_of (<[room := s]> R) room = s.
Proof. unfold state_of. rewrite lookup_insert_eq. reflexivity. Qed.

Lemma state_of_insert_ne (R : gmap pystr BotState) (room r : pystr) (s : BotState) :
  r <> room -> state_of (<[room := s]> R) r = state_of R r.
Proof. intros H. unfold state_of. rewrite lookup_insert_ne by congruence. reflexivity. Qed.

(** [/connect] answers with exactly one message, and changes the room's
    state only when the argument parses to an index [i] with
    [1 <= i <= len(pending_sessions)] and the selected session is still in
    the catalog; then it sets the session id, the working directory and
    the label (the display name, or the first 12 characters of the id)
    from the catalog entry, and nothing else. *)
Theorem handle_connect_effect (o : Oracle) (gsid : pystr -> option SessionInfo)
    (int_of : pystr -> option Z) (room arg : pystr) (R : gmap pystr BotState) T k :
  let w' := fst (handle_connect o gsid int_of room arg (mkWorld R T k)) in
  let s := state_of R room in
  (exists text, trace w' = T ++ [(ApiSend room text, rooms w')]) /\
  (rooms w' = <[room := s]> R \/
   exists index selected session,
     int_of arg = Some index /\
     (1 <= index <= Z.of_nat (length (pending_sessions s)))%Z /\
     nth_error (pending_sessions s) (Z.to_nat (index - 1)) = Some selected /\
     gsid (si_session_id selected) = Some session /\
     rooms w' = <[room := set_session (Some (si_session_id session)) (Some (si_cwd session))
                                      (session_label_of session) s]> R).
Proof.
  cbv zeta.
  destruct (handle_connect o gsid int_of room arg (mkWorld R T k)) as [w' r] eqn:E.
  cbn [fst]. unfold handle_connect, bind at 1 in E. rewrite get_state_spec in E.
  set (s := state_of R room) in *.
  destruct (negb (truthy arg)).
  { rewrite send_spec in E. injection E as <- _. cbn [rooms trace].
    split; [eexists; reflexivity|left; reflexivity]. }
  destruct (int_of arg) as [index|] eqn:Ei.
  2:{ rewrite send_spec in E. injection E as <- _. cbn [rooms trace].
    split; [eexists; reflexivity|left; reflexivity]. }
  destruct (pending_sessions s) as [|p ps] eqn:Ep.
  { rewrite send_spec in E. injection E as <- _. cbn [rooms trace].
    split; [eexists; reflexivity|left; reflexivity]. }
  destruct ((index <? 1)%Z || (Z.of_nat (length (p :: ps)) <? index)%Z) eqn:Er.
  { rewrite send_spec in E. injection E as <- _. cbn [rooms trace].
    split; [eexists; reflexivity|left; reflexivity]. }
  apply orb_false_iff in Er as [Er1 Er2]. apply Z.ltb_ge in Er1. apply Z.ltb_ge in Er2.
  destruct (nth_error (p :: ps) (Z.to_nat (index - 1))) as [selected|] eqn:En.
  2:{ exfalso. apply nth_error_None in En. cbn [length] in *. lia. }
  destruct (gsid (si_session_id selected)) as [session|] eqn:Eg.
  2:{ rewrite send_spec in E. injection E as <- _. cbn [rooms trace].
    split; [eexists; reflexivity|left; reflexivity]. }
  unfold bind in E. rewrite modify_state_spec, send_spec in E. injection E as <- _.
  cbn [rooms trace]. split; [eexists; reflexivity|right].
  exists index, selected, session. repeat split; try assumption; lia.
Qed.

(** [/disconnect] answers with exactly one message; afterwards the room
    has no session, its permission mode, cached session list and busy
    flag are those it had, and no other room changes. *)
Theorem handle_disconnect_effect (o : Oracle) (room : pystr) (R : gmap pystr BotState) T k :
  let w' := fst (handle_disconnect o room (mkWorld R T k)) in
  let s := state_of R room in
  let s' := state_of (rooms w') room in
  (exists text, trace w' = T ++ [(ApiSend room text, rooms w')]) /\
  session_id s' = None /\
  skip_permissions s' = skip_permissions s /\
  pending_sessions s' = pending_sessions s /\
  processing s' = processing s /\
  (forall r, r <> room -> rooms w' !! r = R !! r).
Proof.
  cbv zeta.
  destruct (handle_disconnect o room (mkWorld R T k)) as [w' r] eqn:E.
  cbn [fst]. unfold handle_disconnect, bind at 1 in E. rewrite get_state_spec in E.
  destruct (session_id (state_of R room)) as [sid|] eqn:Es.
  - unfold bind in E. rewrite modify_state_spec, send_spec in E. injection E as <- _.
    cbn [rooms trace]. rewrite state_of_insert_eq.
    split; [eexists; reflexivity|]. repeat split; [].
    intros r' Hr. rewrite lookup_insert_ne by congruence. reflexivity.
  - rewrite send_spec in E. injection E as <- _. cbn [rooms trace].
    rewrite state_of_insert_eq. split; [eexists; reflexivity|].
    repeat split; [exact Es|]. intros r' Hr. rewrite lookup_insert_ne by congruence. reflexivity.
Qed.

Lemma handle_safe_spec (o : Oracle) (room : pystr) (R : gmap pystr BotState) T k :
  fst (handle_safe o room (mkWorld R T k)) =
  let s := state_of R room in
  mkWorld (<[room := set_skip (negb (skip_permissions s)) s]> R)
          (T ++ [(ApiSend room (if negb (skip_permissions s) then skip_mode_text
                                else safe_mode_text),
                  <[room := set_skip (negb (skip_permissions s)) s]> R)])
          (S k).
Proof.
  unfold handle_safe, bind at 1. rewrite get_state_spec. unfold bind at 1.
  rewrite modify_state_spec. cbv zeta.
  destruct (negb (skip_permissions (state_of R room))); rewrite send_spec; reflexivity.
Qed.

(** [/safe] flips the room's permission mode and nothing else, so that
    two [/safe] commands in a row give the room back the state it had,
    each answering with one message, even when the replies fail to send
    (the flip happens before the reply is awaited). *)
Theorem handle_safe_twice (o : Oracle) (room : pystr) (R : gmap pystr BotState) T k :
  let w1 := fst (handle_safe o room (mkWorld R T k)) in
  let w2 := fst (handle_safe o room w1) in
  skip_permissions (state_of (rooms w1) room) = negb (skip_permissions (state_of R room)) /\
  rooms w1 = <[room := set_skip (negb (skip_permissions (state_of R room))) (state_of R room)]> R /\
  rooms w2 = <[room := state_of R room]> R /\
  length (trace w2) = length T + 2.
Proof.
  cbv zeta. rewrite handle_safe_spec. cbv zeta. rewrite handle_safe_spec. cbv zeta.
  cbn [rooms trace]. rewrite !state_of_insert_eq. cbn [skip_permissions set_skip].
  rewrite negb_involutive. rewrite insert_insert_eq.
  split; [reflexivity|]. split; [reflexivity|]. split.
  - f_equal. destruct (state_of R room); reflexivity.
  - rewrite !length_app. cbn [length]. lia.
Qed.

Lemma lift_spec {A} (m : M A) (R : gmap pystr BotState) BT k :
  lift m (mkBWorld R BT k) =
  let '(w', r) := m (mkWorld R [] k) in
  (mkBWorld (rooms w') (BT ++ map (fun p => (Base (fst p), snd p)) (trace w')) (tick w'), r).
Proof. reflexivity. Qed.

Lemma firstn_In_incl {A} (n : nat) (l : list A) (x : A) : In x (firstn n l) -> In x l.
Proof. intros H. rewrite <- (firstn_skipn n l). apply in_or_app. left. exact H. Qed.

Lemma offered_sessions_props (lower : pystr -> pystr) (cat : list SessionInfo) :
  length (offered_sessions lower cat) <= 5 /\
  (forall x, In x (offered_sessions lower cat) -> In x cat) /\
  (cat <> [] -> offered_sessions lower cat <> []) /\
  ((exists x, In x cat /\ useful_display lower x = true) ->
   forall x, In x (offered_sessions lower cat) -> useful_display lower x = true).
Proof.
  unfold offered_sessions, useful_display.
  split; [apply firstn_le_length|].
  destruct (List.filter _ cat) as [|f fs] eqn:Ef.
  - split; [intros x Hx; exact (firstn_In_incl _ _ _ Hx)|]. split.
    + destruct cat as [|c cs]; [tauto|]. intros _. discriminate.
    + intros (x & Hx & Ux). exfalso.
      assert (H : In x []) by (rewrite <- Ef; apply filter_In; auto). exact H.
  - split.
    + intros x Hx. apply firstn_In_incl in Hx. rewrite <- Ef in Hx.
      apply filter_In in Hx. tauto.
    + split; [intros _; discriminate|]. intros _ x Hx.
      apply firstn_In_incl in Hx. rewrite <- Ef in Hx. apply filter_In in Hx. tauto.
Qed.

(** [/sessions] with an empty catalog answers with one text message and
    leaves the room's state as it was. Otherwise it answers with one card
    and caches the offered sessions, changing nothing else. The cache is
    never empty and has at most five entries, all from the catalog. When
    the catalog has a session with a useful display name (not one of
    [_SKIP_DISPLAYS] once stripped and lowercased), every cached session
    has one. *)
Theorem handle_sessions_effect (o : Oracle) (ans_card : nat -> res (option pystr))
    (lrs : nat -> list SessionInfo) (lower : pystr -> pystr) (room : pystr)
    (R : gmap pystr BotState) BT k :
  let w' := fst (handle_sessions o ans_card lrs lower room (mkBWorld R BT k)) in
  let s := state_of R room in
  let cat := lrs 20 in
  exists p c, brooms w' = <[room := set_pending p s]> R /\
    btrace w' = BT ++ [(c, brooms w')] /\
    (cat = [] -> p = pending_sessions s /\ c = Base (ApiSend room (lit "No recent sessions found."))) /\
    (cat <> [] ->
       c = ApiSendCard room p /\ p <> [] /\ length p <= 5 /\ (forall x, In x p -> In x cat) /\
       ((exists x, In x cat /\ useful_display lower x = true) ->
        forall x, In x p -> useful_display lower x = true)).
Proof.
  cbv zeta.
  destruct (handle_sessions o ans_card lrs lower room (mkBWorld R BT k)) as [w' r] eqn:E.
  cbn [fst]. unfold handle_sessions, bbind at 1 in E. rewrite lift_spec, get_state_spec in E.
  cbn [rooms trace tick map app] in E. rewrite app_nil_r in E.
  destruct (lrs 20) as [|c0 cs] eqn:Ec.
  - rewrite lift_spec, send_spec in E. cbn [rooms trace tick map app fst snd] in E.
    injection E as <- _. cbn [brooms btrace].
    exists (pending_sessions (state_of R room)), (Base (ApiSend room (lit "No recent sessions found."))).
    assert (Es : set_pending (pending_sessions (state_of R room)) (state_of R room) = state_of R room)
      by (destruct (state_of R room); reflexivity).
    rewrite Es. split; [reflexivity|]. split; [reflexivity|].
    split; [intros _; split; reflexivity|]. intros H; exfalso; apply H; reflexivity.
  - unfold bbind at 1 in E. rewrite lift_spec, modify_state_spec in E.
    cbn [rooms trace tick map app fst snd] in E.
    unfold bbind, send_card_message in E. cbn [brooms btrace btick fst] in E.
    rewrite app_nil_r in E.
    destruct (ans_card k); injection E as <- _; cbn [brooms btrace];
    (exists (offered_sessions lower (c0 :: cs)), (ApiSendCard room (offered_sessions lower (c0 :: cs)));
     split; [reflexivity|]; split; [reflexivity|];
     split; [intros H; discriminate H|];
     intros _; destruct (offered_sessions_props lower (c0 :: cs)) as (H1 & H2 & H3 & H4);
     split; [reflexivity|]; split; [apply H3; discriminate|];
     split; [exact H1|]; split; [exact H2|exact H4]).
Qed.

Lemma tame_ret {A} (a : A) : tame (ret a).
Proof. intros w. split; [reflexivity|]. exists []. rewrite app_nil_r. split; [reflexivity|constructor]. Qed.

Lemma tame_raise {A} (e : exn) : tame (@raise A e).
Proof. intros w. split; [reflexivity|]. exists []. rewrite app_nil_r. split; [reflexivity|constructor]. Qed.

Lemma tame_bind {A B} (m : M A) (f : A -> M B) :
  tame m -> (forall a, tame (f a)) -> tame (bind m f).
Proof.
  intros Hm Hf w. unfold bind. destruct (Hm w) as [P1 (e1 & T1 & F1)].
  destruct (m w) as [w1 [a|e]]; cbn [fst] in *; [|split; [exact P1|eauto]].
  destruct (Hf a w1) as [P2 (e2 & T2 & F2)]. split.
  - intros r. rewrite P2. apply P1.
  - exists (e1 ++ e2). rewrite T2, T1, app_assoc. split; [reflexivity|].
    apply Forall_app; split; assumption.
Qed.

Lemma tame_get_state (room : pystr) : tame (get_state room).
Proof.
  intros [R T k]. rewrite get_state_spec. cbn [fst rooms trace]. split.
  - intros r. destruct (decide (r = room)) as [->|Hr].
    + rewrite state_of_insert_eq. reflexivity.
    + rewrite state_of_insert_ne by exact Hr. reflexivity.
  - exists []. rewrite app_nil_r. split; [reflexivity|constructor].
Qed.

Lemma tame_modify_state (room : pystr) (f : BotState -> BotState) :
  (forall s, processing (f s) = processing s) -> tame (modify_state room f).
Proof.
  intros Hf [R T k]. unfold modify_state. cbn [rooms trace tick].
  destruct (R !! room) as [s|] eqn:E; cbn [fst rooms trace].
  - split.
    + intros r. destruct (decide (r = room)) as [->|Hr].
      * rewrite state_of_insert_eq. unfold state_of. rewrite E. apply Hf.
      * rewrite state_of_insert_ne by exact Hr. reflexivity.
    + exists []. rewrite app_nil_r. split; [reflexivity|constructor].
  - split; [reflexivity|]. exists []. rewrite app_nil_r. split; [reflexivity|constructor].
Qed.

Lemma tame_send (o : Oracle) (room text : pystr) : tame (send o room text).
Proof.
  intros [R T k]. rewrite send_spec. cbn [fst rooms trace]. split; [reflexivity|].
  eexists. split; [reflexivity|]. repeat constructor.
Qed.

Lemma btame_lift {A} (m : M A) : tame m -> btame (lift m).
Proof.
  intros Hm [R BT k]. rewrite lift_spec. destruct (Hm (mkWorld R [] k)) as [P (e & T & F)].
  destruct (m (mkWorld R [] k)) as [w' r]. cbn [fst rooms trace brooms btrace] in *.
  split; [exact P|]. rewrite T. cbn [app].
  exists (map (fun p => (Base (fst p), snd p)) e). split; [reflexivity|].
  apply Forall_map. eapply Forall_impl; [exact F|]. intros [c x]; destruct c; cbn; auto.
Qed.

Lemma btame_bret {A} (a : A) : btame (bret a).
Proof. intros w. split; [reflexivity|]. exists []. rewrite app_nil_r. split; [reflexivity|constructor]. Qed.

Lemma btame_bbind {A B} (m : BM A) (f : A -> BM B) :
  btame m -> (forall a, btame (f a)) -> btame (bbind m f).
Proof.
  intros Hm Hf w. unfold bbind. destruct (Hm w) as [P1 (e1 & T1 & F1)].
  destruct (m w) as [w1 [a|e]]; cbn [fst] in *; [|split; [exact P1|eauto]].
  destruct (Hf a w1) as [P2 (e2 & T2 & F2)]. split.
  - intros r. rewrite P2. apply P1.
  - exists (e1 ++ e2). rewrite T2, T1, app_assoc. split; [reflexivity|].
    apply Forall_app; split; assumption.
Qed.

Lemma btame_card (ans_card : nat -> res (option pystr)) (room : pystr) (l : list SessionInfo) :
  btame (send_card_message ans_card room l).
Proof.
  intros w. unfold send_card_message. cbn [fst brooms btrace]. split; [reflexivity|].
  eexists. split; [reflexivity|]. repeat constructor.
Qed.

Create HintDb tame_db.
#[local] Hint Resolve tame_ret tame_raise tame_get_state tame_send btame_bret btame_card
  btame_lift : tame_db.

Ltac tame_step :=
  match goal with
  | |- tame (bind _ _) => apply tame_bind; [|intros ?]
  | |- btame (bbind _ _) => apply btame_bbind; [|intros ?]
  | |- btame (lift _) => apply btame_lift
  | |- tame (modify_state _ _) => apply tame_modify_state; intros [? ? ? ? ? ?]; reflexivity
  | |- tame (if ?b then _ else _) => destruct b
  | |- btame (if ?b then _ else _) => destruct b
  | |- tame (match ?x with _ => _ end) => destruct x
  | |- btame (match ?x with _ => _ end) => destruct x
  | |- _ => solve [auto with tame_db]
  end.

Lemma tame_handle_connect (o : Oracle) (gsid : pystr -> option SessionInfo)
    (int_of : pystr -> option Z) (room arg : pystr) :
  tame (handle_connect o gsid int_of room arg).
Proof. unfold handle_connect. repeat tame_step. Qed.

Lemma btame_run_command (o : Oracle) (ans_card : nat -> res (option pystr))
    (lrs : nat -> list SessionInfo) (lower : pystr -> pystr) (cmd : Command) (room : pystr) :
  btame (run_command o ans_card lrs lower cmd room).
Proof.
  destruct cmd; cbn [run_command];
    unfold handle_start, handle_sessions, handle_disconnect, handle_status, handle_safe;
    repeat tame_step.
Qed.

(** A message that starts with ["/"] once stripped is a command: whatever
    the command and the answers of the outside world, handling it makes
    no call to the Claude CLI and leaves every room's busy flag as it
    was, so commands never interfere with a turn in progress. *)
Theorem dispatch_command_tame (o : Oracle) (B : nat) (ans_card : nat -> res (option pystr))
    (lrs : nat -> list SessionInfo) (gsid : pystr -> option SessionInfo)
    (lower : pystr -> pystr) (int_of : pystr -> option Z) (room text : pystr) (w : BWorld) :
  is_prefix (lit "/") (strip text) = true ->
  let w' := fst (dispatch o B ans_card lrs gsid lower int_of room text w) in
  (forall r, processing (state_of (brooms w') r) = processing (state_of (brooms w) r)) /\
  exists ext, btrace w' = btrace w ++ ext /\
              Forall (fun p => is_cli_call (fst p) = false) ext.
Proof.
  intros H. cbv zeta. revert w. change (btame (dispatch o B ans_card lrs gsid lower int_of room text)).
  unfold dispatch. cbv zeta. rewrite H. cbn [negb].
  destruct (split_ws1 (strip text)) as [|first rest]; [repeat tame_step|].
  destruct (bool_decide (lower first = lit "/connect")).
  - apply btame_lift, tame_handle_connect.
  - destruct (lookup_command (lower first)); [apply btame_run_command|apply btame_lift, tame_send].
Qed.

Lemma dispatch_command_tame_witness :
  let o := mkOracle (fun _ => Ok None) (fun _ => Ok true) (fun _ => Ok []) in
  let w := mkBWorld ∅ [] 0 in
  is_prefix (lit "/") (strip (lit "  /safe ")) = true /\
  processing (state_of (brooms (fst (dispatch o 100 (fun _ => Ok None) (fun _ => [])
     (fun _ => None) (fun s => s) Webex.parse_int (lit "r") (lit "  /safe ") w))) (lit "r")) =
  processing (state_of (brooms w) (lit "r")).
Proof.
  intros o w. assert (H : is_prefix (lit "/") (strip (lit "  /safe ")) = true) by reflexivity.
  split; [exact H|].
  exact (proj1 (dispatch_command_tame o 100 (fun _ => Ok None) (fun _ => []) (fun _ => None)
                  (fun s => s) Webex.parse_int (lit "r") _ w H) (lit "r")).
Defined.

Lemma is_prefix_app (h r : pystr) : is_prefix h (h ++ r) = true.
Proof. induction h as [|c h IH]; cbn; [reflexivity|]. rewrite N.eqb_refl. exact IH. Qed.

Lemma skipn_length_app {A} (h r : list A) : skipn (length h) (h ++ r) = r.
Proof. induction h as [|c h IH]; cbn; [reflexivity|exact IH]. Qed.

(** The home-directory shortening of [_short_path] is a plain string
    prefix test: a working directory that starts with the home
    directory's text shows as ["~/"] followed by the rest, with one
    separating ["/"] dropped, even when the rest is not a path component
    boundary (a home of ["/home/al"] shows ["/home/alice/x"] as
    ["~/ice/x"]); the home directory itself shows as ["~"]. *)
Theorem short_path_home_prefix (parts : pystr -> list pystr) (h r : pystr) :
  truthy r = true -> is_prefix (lit "/") r = false ->
  Bot._short_path parts (Some h) (h ++ r) = lit "~/" ++ r /\
  Bot._short_path parts (Some h) (h ++ lit "/" ++ r) = lit "~/" ++ r /\
  Bot._short_path parts (Some h) h = lit "~".
Proof.
  intros Ht Hs. unfold Bot._short_path. rewrite !is_prefix_app, !skipn_length_app.
  pose proof (is_prefix_app h []) as E1. pose proof (skipn_length_app h []) as E2.
  rewrite app_nil_r in E1, E2. rewrite E1, E2.
  rewrite is_prefix_app. cbn [skipn lit app] in *. rewrite Hs. cbn [skipn]. rewrite Ht.
  split; [reflexivity|]. change (skipn 0 r) with r. rewrite Ht. split; reflexivity.
Qed.

Lemma short_path_home_prefix_witness :
  truthy (lit "ice/x") = true /\ is_prefix (lit "/") (lit "ice/x") = false /\
  Bot._short_path (fun _ => []) (Some (lit "/home/al")) (lit "/home/al" ++ lit "ice/x") =
  lit "~/" ++ lit "ice/x".
Proof.
  assert (H1 : truthy (lit "ice/x") = true) by reflexivity.
  assert (H2 : is_prefix (lit "/") (lit "ice/x") = false) by reflexivity.
  split; [exact H1|]. split; [exact H2|].
  exact (proj1 (short_path_home_prefix (fun _ => []) (lit "/home/al") (lit "ice/x") H1 H2)).
Defined.

End BotMore.
